(** * Wawelet-Online: the real-time core, embedded and verified

  A shallow embedding of the ring buffer, the signal engine, the tone
  component, the plugin registry and the two built-in transforms, followed
  by the properties the specification states about them.

  Conventions of the embedding:
  - Python [int] is [Z]; a float is a rational [Q]. The arithmetic of the
    tone's smoothing rounds to binary64 as the interpreter does, the casts
    to [float32] of the frequency grid and of the scales round to binary32,
    and a sample of a chunk is a binary32 value that may also be an
    infinity or a NaN; the other float expressions are exact: their
    rounding does not bear on what is proved about them;
  - a one-dimensional NumPy array is a [list];
  - a [dict] with string keys is a [gmap string _];
  - a call that may raise returns an [option] ([None] is the exception) or
    a [result] naming the exception, paired with the object after the call
    where the state reached at the exception matters;
  - each mutex only serialises the calls of its object, and every call is
    modelled as one atomic step. *)

From Stdlib Require Import ZArith QArith Qround Qabs Lia Lqa.
From stdpp Require Import base option list gmap strings.

Local Open Scope Z_scope.

(** ** Python and NumPy primitives *)

Module Py.

Section Slices.
Context {A : Type}.

(** A slice bound [i] of a sequence of length [len]: negative bounds count
    from the end, and every bound is clamped into [0 .. len]. *)
Definition clamp_index (len i : Z) : Z :=
  if i <? 0 then Z.max 0 (i + len) else Z.min i len.

Definition slice_start (lo : option Z) (l : list A) : Z :=
  match lo with
  | None => 0
  | Some i => clamp_index (Z.of_nat (length l)) i
  end.

Definition slice_stop (hi : option Z) (l : list A) : Z :=
  match hi with
  | None => Z.of_nat (length l)
  | Some j => clamp_index (Z.of_nat (length l)) j
  end.

(** [l[lo:hi]] *)
Definition slice (lo hi : option Z) (l : list A) : list A :=
  let a := slice_start lo l in
  let b := slice_stop hi l in
  take (Z.to_nat (b - a)) (drop (Z.to_nat a) l).

(** [l[lo:hi] = x] on a NumPy array: the shapes must agree, except that a
    one-element right-hand side is broadcast; otherwise NumPy raises
    [ValueError]. *)
Definition assign_slice (lo hi : option Z) (x l : list A) : option (list A) :=
  let a := Z.to_nat (slice_start lo l) in
  let m := Z.to_nat (slice_stop hi l - slice_start lo l) in
  if decide (length x = m) then Some (take a l ++ x ++ drop (a + m) l)
  else match x with
       | [v] => Some (take a l ++ replicate m v ++ drop (a + m) l)
       | _ => None
       end.

(** [l[:] = v] for a scalar [v] *)
Definition fill (v : A) (l : list A) : list A := replicate (length l) v.

(** The last [k] elements of [l]. *)
Definition lastn (k : nat) (l : list A) : list A := drop (length l - k) l.
End Slices.

End Py.

(** ** core/ring_buffer.py *)

Module RingBuffer.
Import Py.

Section Ring.
Context {A : Type} (zero : A).

Record t := mk {
  capacity : Z;
  buf : list A;
  write : Z;
  filled : Z
}.

(** [RingBuffer.__init__]; [np.zeros] raises on a negative size. *)
Definition new (cap : Z) : option t :=
  if cap <? 0 then None
  else Some {| capacity := cap; buf := replicate (Z.to_nat cap) zero;
               write := 0; filled := 0 |}.

Definition clear (rb : t) : t :=
  {| capacity := capacity rb; buf := fill zero (buf rb);
     write := 0; filled := 0 |}.

Definition append (rb : t) (x : list A) : option t :=
  let n := Z.of_nat (length x) in
  if n =? 0 then Some rb
  else if capacity rb <=? n then
    b ← assign_slice None None (slice (Some (- capacity rb)) None x) (buf rb);
    Some {| capacity := capacity rb; buf := b;
            write := 0; filled := capacity rb |}
  else
    let end_ := write rb + n in
    b ← (if end_ <=? capacity rb then
           assign_slice (Some (write rb)) (Some end_) x (buf rb)
         else
           let k := capacity rb - write rb in
           b1 ← assign_slice (Some (write rb)) None (slice None (Some k) x) (buf rb);
           assign_slice None (Some (end_ - capacity rb)) (slice (Some k) None x) b1);
    Some {| capacity := capacity rb; buf := b;
            write := end_ `mod` capacity rb;
            filled := Z.min (capacity rb) (filled rb + n) |}.

Definition get_last (rb : t) (n : Z) : list A :=
  let n := Z.min n (filled rb) in
  if n <=? 0 then []
  else
    let start := (write rb - n) `mod` capacity rb in
    if start <? write rb then slice (Some start) (Some (write rb)) (buf rb)
    else slice (Some start) None (buf rb) ++ slice None (Some (write rb)) (buf rb).

(** A run of [append] calls; the first exception ends the run. *)
Fixpoint appends (rb : t) (batches : list (list A)) : option t :=
  match batches with
  | [] => Some rb
  | x :: rest => rb' ← append rb x; appends rb' rest
  end.

(** The data-model invariant of the buffer: a positive capacity [C],
    storage of size [C], cursor in [0, C), filled count in [0, C]. *)
Record wf (rb : t) : Prop := {
  wf_cap : 0 < capacity rb;
  wf_buf : Z.of_nat (length (buf rb)) = capacity rb;
  wf_write : 0 <= write rb < capacity rb;
  wf_filled : 0 <= filled rb <= capacity rb
}.

(** The storage read in arrival order: oldest cell first. *)
Definition view (rb : t) : list A :=
  drop (Z.to_nat (write rb)) (buf rb) ++ take (Z.to_nat (write rb)) (buf rb).
End Ring.

Arguments t : clear implicits.

End RingBuffer.

(** ** Exceptions *)

Module Exn.

Inductive exn :=
| ValueError | ZeroDivisionError | KeyError | ImportError
| TypeError | AttributeError | OverflowError
| Exception (msg : string).

(** The outcome of a call that may raise. *)
Inductive result (T : Type) := Ok (v : T) | Raise (e : exn).
Arguments Ok {T} v.
Arguments Raise {T} e.

End Exn.

(** ** Binary floating point

    Rounding to nearest, ties to even, of a rational to a binary format
    with [prec] significant bits whose least subnormal is [2 ^ emin]: the
    rounding of IEEE 754 below the overflow threshold. *)

Module Binary.

(** [2 ^ e] for an exponent of either sign. *)
Definition pow2 (e : Z) : Q :=
  if 0 <=? e then inject_Z (2 ^ e) else / inject_Z (2 ^ (- e)).

(** [floor (log2 q)] of a positive rational. *)
Definition ilog2 (q : Q) : Z :=
  let k := Z.log2 (Qnum q) - Z.log2 (Zpos (Qden q)) in
  if Qle_bool (pow2 k) q then k else k - 1.

(** The nearest integer, a tie going to the even one. *)
Definition rint (q : Q) : Z :=
  let f := Qfloor q in
  match Qcompare (q - inject_Z f) (1 # 2) with
  | Lt => f
  | Gt => f + 1
  | Eq => if Z.even f then f else f + 1
  end.

(** A positive rational rounded to a multiple of the unit in its last
    place. *)
Definition round_pos (prec emin : Z) (a : Q) : Q :=
  let e := Z.max emin (ilog2 a - prec + 1) in
  (inject_Z (rint (a / pow2 e)) * pow2 e)%Q.

Definition round (prec emin : Z) (q : Q) : Q :=
  if Qeq_bool q 0 then 0%Q
  else if Qle_bool 0 q then round_pos prec emin q
  else (- round_pos prec emin (- q))%Q.

End Binary.

(** Python floats: binary64. Each operation rounds its exact result. An
    operation whose result leaves the finite range gives an infinity in the
    interpreter and is outside these definitions: what is stated of them
    carries [finite] as a hypothesis. *)
Module F64.

Definition round : Q -> Q := Binary.round 53 (-1074).

Definition add (a b : Q) : Q := round (a + b).
Definition sub (a b : Q) : Q := round (a - b).
Definition mul (a b : Q) : Q := round (a * b).
Definition div (a b : Q) : Q := round (a / b).

(** The float of a Python [int], as in [n / fs]. *)
Definition of_int (z : Z) : Q := round (inject_Z z).


End F64.

(** NumPy [float32]: binary32. A cell of a [float32] array is a finite
    value, an infinity or a NaN. *)
Module F32.

Inductive t := Fin (q : Q) | PInf | NInf | NaN.

Definition zero : t := Fin 0.

Definition round : Q -> Q := Binary.round 24 (-149).

(** The conversion of a Python float to [float32]: a value that rounds to
    [2 ^ 128] or beyond becomes an infinity. *)
Definition of_Q (q : Q) : t :=
  let r := round q in
  if Qle_bool (Binary.pow2 128) r then PInf
  else if Qle_bool r (- Binary.pow2 128) then NInf
  else Fin r.

Definition is_nan (a : t) : bool :=
  match a with NaN => true | _ => false end.

(** [a <= b]; false when either side is a NaN. *)
Definition leb (a b : t) : bool :=
  match a, b with
  | NaN, _ | _, NaN => false
  | NInf, _ | _, PInf => true
  | PInf, _ | _, NInf => false
  | Fin x, Fin y => Qle_bool x y
  end.

(** The sum of two cells; the sum of two finite cells is taken exactly. *)
Definition add (a b : t) : t :=
  match a, b with
  | NaN, _ | _, NaN => NaN
  | PInf, NInf | NInf, PInf => NaN
  | PInf, _ | _, PInf => PInf
  | NInf, _ | _, NInf => NInf
  | Fin x, Fin y => Fin (x + y)
  end.

(** [np.maximum] and [np.minimum]: a NaN on either side gives a NaN. *)
Definition maximum (a b : t) : t :=
  if is_nan a then a else if is_nan b then b
  else if leb b a then a else b.

Definition minimum (a b : t) : t :=
  if is_nan a then a else if is_nan b then b
  else if leb a b then a else b.

End F32.

(** ** Parameter values

    The parameters of the signal components are numbers: every [ParamSpec]
    of the five component schemas has type ["float"] or ["int"], and the
    parameter forms produce a [float] or an [int] for them. *)

Module Value.

Inductive t := VInt (z : Z) | VFloat (q : Q) | VBool (b : bool).

(** Rounding toward zero, as [int(x)] does on a float. *)
Definition Qtruncate (q : Q) : Z :=
  if Qle_bool 0 q then Qfloor q else Qceiling q.

(** [float(v)] *)
Definition py_float (v : t) : Q :=
  match v with
  | VInt z => inject_Z z
  | VFloat q => q
  | VBool b => if b then 1%Q else 0%Q
  end.

(** [int(v)] *)
Definition py_int (v : t) : Z :=
  match v with
  | VInt z => z
  | VFloat q => Qtruncate q
  | VBool b => if b then 1 else 0
  end.

(** [bool(v)] *)
Definition py_bool (v : t) : bool :=
  match v with
  | VInt z => negb (z =? 0)
  | VFloat q => negb (Qeq_bool q 0)
  | VBool b => b
  end.

End Value.

(** ** core/schema.py

    The labels, descriptions and examples of a [ParamSpec] are texts for the
    parameter forms; the record keeps the fields the core reads. *)

Module Schema.

Record ParamSpec := {
  key : string;
  type : string;
  default : Value.t;
  min : option Q;
  max : option Q;
  step : option Q
}.

End Schema.

(** ** core/realtime_clock.py

    The wall-clock reference [_t0] only feeds [uptime_sec] and is left out. *)

Module RealtimeClock.

Record t := { _samples : Z }.

Definition new : t := {| _samples := 0 |}.

Definition reset (c : t) : t := {| _samples := 0 |}.

Definition advance (c : t) (n_samples : Z) : t :=
  {| _samples := _samples c + n_samples |}.

Definition sample_index (c : t) : Z := _samples c.

End RealtimeClock.

(** ** signal/components *)

Module Components.
Import Exn.

Abbreviation dict := (gmap string Value.t).

Record ComponentState := {
  enabled : bool;
  params : dict
}.

(** The five component classes. *)
Inductive kind := Noise | Sine | RectPulse | GaussPulse | Chirp.

Definition TYPE (k : kind) : string :=
  match k with
  | Noise => "noise"
  | Sine => "sine"
  | RectPulse => "rect_pulse"
  | GaussPulse => "gauss_pulse"
  | Chirp => "chirp"
  end.

Definition NAME (k : kind) : string :=
  match k with
  | Noise => "Шум (гауссов)"
  | Sine => "Синусоида"
  | RectPulse => "Прямоугольные импульсы"
  | GaussPulse => "Гауссовы импульсы"
  | Chirp => "Чирп-свип (линейная развертка)"
  end.

Definition BUILTIN_COMPONENTS : gmap string kind :=
  <["chirp" := Chirp]> (<["gauss_pulse" := GaussPulse]> (<["rect_pulse" := RectPulse]>
    (<["sine" := Sine]> (<["noise" := Noise]> ∅)))).

Definition float_spec (k : string) (d lo hi st : Q) : Schema.ParamSpec :=
  {| Schema.key := k; Schema.type := "float"; Schema.default := Value.VFloat d;
     Schema.min := Some lo; Schema.max := Some hi; Schema.step := Some st |}.

Definition int_spec (k : string) (d : Z) (lo hi st : Q) : Schema.ParamSpec :=
  {| Schema.key := k; Schema.type := "int"; Schema.default := Value.VInt d;
     Schema.min := Some lo; Schema.max := Some hi; Schema.step := Some st |}.

Definition schema (k : kind) : list Schema.ParamSpec :=
  match k with
  | Noise =>
      [ float_spec "mean" 0.0 (-5.0) 5.0 0.01;
        float_spec "sigma" 0.2 0.0 5.0 0.01;
        int_spec "seed" 0 0 10000 1 ]
  | Sine =>
      [ float_spec "amplitude" 1.0 0.0 10.0 0.01;
        float_spec "frequency" 5.0 0.0 10000000.0 0.1;
        float_spec "phase" 0.0 (-10.0) 10.0 0.01;
        float_spec "dc" 0.0 (-5.0) 5.0 0.01;
        int_spec "smooth_ms" 150 0 500 10 ]
  | RectPulse =>
      [ float_spec "amplitude" 1.0 0.0 10.0 0.01;
        float_spec "width_sec" 0.02 0.0005 2.0 0.0005;
        float_spec "period_sec" 0.3 0.001 10.0 0.001;
        float_spec "start_time_sec" 0.0 0.0 60.0 0.01 ]
  | GaussPulse =>
      [ float_spec "amplitude" 1.0 0.0 10.0 0.01;
        float_spec "sigma_sec" 0.01 0.0002 2.0 0.0002;
        float_spec "center_time_sec" 1.0 0.0 60.0 0.01;
        float_spec "repetition_period_sec" 0.0 0.0 10.0 0.01 ]
  | Chirp =>
      [ float_spec "amplitude" 0.8 0.0 10.0 0.01;
        float_spec "f0" 10.0 0.0 10000000.0 0.1;
        float_spec "f1" 200.0 0.0 10000000.0 0.1;
        float_spec "duration_sec" 2.0 0.01 60.0 0.01;
        float_spec "start_time_sec" 0.0 0.0 60.0 0.01 ]
  end.

(** [SignalComponent.default_params]: a dict comprehension over the schema. *)
Definition default_params (k : kind) : dict :=
  fold_left (fun d s => <[Schema.key s := Schema.default s]> d) (schema k) ∅.

(** A component object: its class, its [state], and the private fields its
    class adds ([_cur] and [_target] of the tone, [_last_seed] of the noise;
    the generator [_rng] itself lives in the waveform oracle). *)
Inductive t :=
| NoiseComponent (state : ComponentState) (_last_seed : option Z)
| SineComponent (state : ComponentState) (_cur _target : dict)
| RectPulseComponent (state : ComponentState)
| GaussPulseComponent (state : ComponentState)
| ChirpComponent (state : ComponentState).

Definition kind_of (c : t) : kind :=
  match c with
  | NoiseComponent _ _ => Noise
  | SineComponent _ _ _ => Sine
  | RectPulseComponent _ => RectPulse
  | GaussPulseComponent _ => GaussPulse
  | ChirpComponent _ => Chirp
  end.

Definition state (c : t) : ComponentState :=
  match c with
  | NoiseComponent s _ | SineComponent s _ _ | RectPulseComponent s
  | GaussPulseComponent s | ChirpComponent s => s
  end.

Definition set_state (c : t) (s : ComponentState) : t :=
  match c with
  | NoiseComponent _ ls => NoiseComponent s ls
  | SineComponent _ cur tgt => SineComponent s cur tgt
  | RectPulseComponent _ => RectPulseComponent s
  | GaussPulseComponent _ => GaussPulseComponent s
  | ChirpComponent _ => ChirpComponent s
  end.

(** [cls(state)] *)
Definition construct (k : kind) (s : ComponentState) : t :=
  match k with
  | Noise => NoiseComponent s None
  | Sine => SineComponent s (params s) (params s)
  | RectPulse => RectPulseComponent s
  | GaussPulse => GaussPulseComponent s
  | Chirp => ChirpComponent s
  end.

(** [c.state.enabled = b] *)
Definition set_enabled (c : t) (b : bool) : t :=
  set_state c {| enabled := b; params := params (state c) |}.

(** [dict.update]: the keys of [new] take their new values. *)
Definition dict_update (d new : dict) : dict := new ∪ d.

(** [update_params]; the tone updates [_target] first, then the base class
    updates [state.params]. *)
Definition update_params (c : t) (new_params : dict) : t :=
  let s := {| enabled := enabled (state c);
              params := dict_update (params (state c)) new_params |} in
  match c with
  | SineComponent _ cur tgt => SineComponent s cur (dict_update tgt new_params)
  | _ => set_state c s
  end.

(** [d.get(key, dflt)] *)
Definition get (d : dict) (k : string) (dflt : Value.t) : Value.t :=
  default dflt (d !! k).

(** [np.zeros(n, dtype=np.float32)] raises on a negative size. *)
Definition np_zeros (n : Z) : result (list F32.t) :=
  if n <? 0 then Raise ValueError else Ok (replicate (Z.to_nat n) F32.zero).

Definition Qmin1 (a b : Q) : Q := if Qle_bool a b then a else b.

(** [SineComponent._smooth] on the dict [_cur]: [c + alpha * (t - c)] in
    float arithmetic, each of the three operations rounded. *)
Definition _smooth (key : string) (alpha : Q) (cur tgt : dict) : dict :=
  let c := Value.py_float (get cur key (Value.VFloat 0.0)) in
  let t := Value.py_float (get tgt key (Value.VFloat c)) in
  <[key := Value.VFloat (F64.add c (F64.mul alpha (F64.sub t c)))]> cur.

(** The smoothing factor of one chunk,
    [min(1.0, (n / fs) / (smooth_ms / 1000.0))]; [n / fs] raises on
    [fs = 0]. *)
Definition sine_alpha (smooth_ms n : Z) (fs : Q) : result Q :=
  if smooth_ms <=? 0 then Ok 1.0%Q
  else if Qeq_bool fs 0 then Raise ZeroDivisionError
  else Ok (Qmin1 1.0 (F64.div (F64.div (F64.of_int n) fs)
                              (F64.div (F64.of_int smooth_ms) 1000.0))).

Section Generate.
(** The samples an enabled component of a class computes from its effective
    parameters for the chunk [(t0, n, fs)]: NumPy and SciPy numerics (sine,
    exponential, chirp, normal variates) outside this development. *)
Variable waveform : kind -> dict -> Q -> Z -> Q -> list F32.t.

(** The exception, if any, that these numerics raise past the guards
    written out below: [scipy.signal.chirp] divides by [duration_sec]
    ([ZeroDivisionError] when it is zero and a sample falls on the sweep),
    and the pulse train takes [int] of a quotient that may be infinite or
    a NaN ([OverflowError], [ValueError]). *)
Variable fails : kind -> dict -> Q -> Z -> Q -> option exn.

(** [generate] of each class: the returned chunk (or the exception) and the
    component after the call. *)
Definition generate (c : t) (t0 : Q) (n : Z) (fs : Q) : result (list F32.t) * t :=
  if negb (enabled (state c)) then (np_zeros n, c)
  else
    match c with
    | SineComponent s cur tgt =>
        let smooth_ms :=
          Value.py_int (get (params s) "smooth_ms" (Value.VInt 150)) in
        let cur := if smooth_ms <=? 0 then tgt else cur in
        match sine_alpha smooth_ms n fs with
        | Raise e => (Raise e, SineComponent s cur tgt)
        | Ok alpha =>
            let cur := _smooth "amplitude" alpha cur tgt in
            let cur := _smooth "frequency" alpha cur tgt in
            let cur := _smooth "phase" alpha cur tgt in
            let cur := _smooth "dc" alpha cur tgt in
            (Ok (waveform Sine cur t0 n fs), SineComponent s cur tgt)
        end
    | NoiseComponent s last_seed =>
        let sigma := Value.py_float (get (params s) "sigma" (Value.VFloat 0.2)) in
        let seed := Value.py_int (get (params s) "seed" (Value.VInt 0)) in
        let reseed := negb (bool_decide (last_seed = Some seed)) in
        let c' := NoiseComponent s (Some seed) in
        (* [default_rng] rejects a negative seed, after [_last_seed] is set *)
        if reseed && (seed <? 0) then (Raise ValueError, c')
        (* [normal] rejects a negative scale and a negative size *)
        else if negb (Qle_bool 0 sigma) || (n <? 0) then (Raise ValueError, c')
        else (Ok (waveform Noise (params s) t0 n fs), c')
    | GaussPulseComponent s =>
        let rp := Value.py_float
                    (get (params s) "repetition_period_sec" (Value.VFloat 0.0)) in
        if n <? 0 then (Raise ValueError, c)
        else if negb (Qeq_bool rp 0) && negb (Qle_bool rp 0) && Qeq_bool fs 0
        then (Raise ZeroDivisionError, c)
        else match fails GaussPulse (params s) t0 n fs with
             | Some e => (Raise e, c)
             | None => (Ok (waveform GaussPulse (params s) t0 n fs), c)
             end
    | RectPulseComponent s =>
        if n <? 0 then (Raise ValueError, c)
        else (Ok (waveform RectPulse (params s) t0 n fs), c)
    | ChirpComponent s =>
        if n <? 0 then (Raise ValueError, c)
        else match fails Chirp (params s) t0 n fs with
             | Some e => (Raise e, c)
             | None => (Ok (waveform Chirp (params s) t0 n fs), c)
             end
    end.
End Generate.

End Components.

(** ** signal/signal_engine.py

    The engine is modelled sequentially: the mutex only serialises the
    calls. The scratch array [_chunk_buf] is read through a zero-filled
    view of its first cells and is not part of the state. *)

Module SignalEngine.
Import Exn Components.

Definition MAX_CHUNK : Z := 131072.

Record t := {
  clock : RealtimeClock.t;
  components : list Components.t;
  fs : Q;
  chunk_size : Z;
  amplitude_clip : Q;
  _paused : bool
}.

Definition new (clk : RealtimeClock.t) : t :=
  {| clock := clk; components := []; fs := 2000.0; chunk_size := 256;
     amplitude_clip := 0.0; _paused := true |}.

Definition set_components (e : t) (cs : list Components.t) : t :=
  {| clock := clock e; components := cs; fs := fs e;
     chunk_size := chunk_size e; amplitude_clip := amplitude_clip e;
     _paused := _paused e |}.

Definition set_clock (e : t) (clk : RealtimeClock.t) : t :=
  {| clock := clk; components := components e; fs := fs e;
     chunk_size := chunk_size e; amplitude_clip := amplitude_clip e;
     _paused := _paused e |}.

Definition set_paused (e : t) (b : bool) : t :=
  {| clock := clock e; components := components e; fs := fs e;
     chunk_size := chunk_size e; amplitude_clip := amplitude_clip e;
     _paused := b |}.

Definition set_global (e : t) (fs' : option Q) (chunk_size' : option Z)
    (amplitude_clip' : option Q) : t :=
  {| clock := clock e; components := components e;
     fs := default (fs e) fs';
     chunk_size := default (chunk_size e) chunk_size';
     amplitude_clip := default (amplitude_clip e) amplitude_clip';
     _paused := _paused e |}.

Definition get_global (e : t) : Q * Z := (fs e, chunk_size e).

Definition play (e : t) : t := set_paused e false.
Definition pause (e : t) : t := set_paused e true.
Definition is_paused (e : t) : bool := _paused e.
Definition reset (e : t) : t := set_clock e (RealtimeClock.reset (clock e)).

(** The loop [for s in cls.schema(): state.params[s.key] = s.default]. *)
Definition store_defaults (sch : list Schema.ParamSpec) (d : dict) : dict :=
  fold_left (fun d s => <[Schema.key s := Schema.default s]> d) sch d.

(** [add_component]: the index of the new component, or [KeyError] on an
    unknown type. *)
Definition add_component (e : t) (comp_type : string) (params : option dict)
    (enabled : bool) : result Z * t :=
  match BUILTIN_COMPONENTS !! comp_type with
  | None => (Raise KeyError, e)
  | Some cls =>
      let p := store_defaults (schema cls) ∅ in
      let p := match params with
               | Some d => if decide (d = ∅) then p else dict_update p d
               | None => p
               end in
      let obj := construct cls {| Components.enabled := enabled; Components.params := p |} in
      let cs := components e ++ [obj] in
      (Ok (Z.of_nat (length cs) - 1), set_components e cs)
  end.

(** [0 <= idx < len(self.components)] *)
Definition in_range (e : t) (idx : Z) : bool :=
  (0 <=? idx) && (idx <? Z.of_nat (length (components e))).

Definition remove_component (e : t) (idx : Z) : t :=
  if in_range e idx then set_components e (delete (Z.to_nat idx) (components e))
  else e.

Definition set_component_enabled (e : t) (idx : Z) (enabled : bool) : t :=
  if in_range e idx then
    set_components e
      (alter (fun c => set_enabled c enabled) (Z.to_nat idx) (components e))
  else e.

Definition update_component_params (e : t) (idx : Z) (params : dict) : t :=
  if in_range e idx then
    set_components e
      (alter (fun c => update_params c params) (Z.to_nat idx) (components e))
  else e.

(** One entry of a snapshot or of a saved configuration: a dict whose keys
    ["type"], ["name"], ["enabled"] and ["params"] may each be missing. *)
Record snap_entry := {
  s_type : option string;
  s_name : option string;
  s_enabled : option Value.t;
  s_params : option dict
}.

Definition snapshot_components (e : t) : list snap_entry :=
  fold_left
    (fun snap c =>
       snap ++ [ {| s_type := Some (TYPE (kind_of c));
                    s_name := Some (NAME (kind_of c));
                    s_enabled := Some (Value.VBool (enabled (state c)));
                    s_params := Some (params (state c)) |} ])
    (components e) [].

(** The loop [for s in cls.schema(): if s.key not in state.params: ...]. *)
Definition fill_missing (sch : list Schema.ParamSpec) (d : dict) : dict :=
  fold_left
    (fun d s => match d !! Schema.key s with
                | Some _ => d
                | None => <[Schema.key s := Schema.default s]> d
                end)
    sch d.

Definition replace_components (e : t) (components_snap : list snap_entry) : t :=
  set_components e
    (fold_left
       (fun cs c =>
          match s_type c ≫= (fun ty => BUILTIN_COMPONENTS !! ty) with
          | None => cs
          | Some cls =>
              let st := {| Components.enabled :=
                             Value.py_bool (default (Value.VBool true) (s_enabled c));
                           Components.params :=
                             fill_missing (schema cls) (default ∅ (s_params c)) |} in
              cs ++ [construct cls st]
          end)
       components_snap []).

(** [x += y] on NumPy arrays: equal shapes, or a one-element [y]. *)
Definition iadd (x y : list F32.t) : result (list F32.t) :=
  if decide (length y = length x) then Ok (zip_with F32.add x y)
  else match y with
       | [v] => Ok (map (fun a => F32.add a v) x)
       | _ => Raise ValueError
       end.

(** One cell of [np.clip(x, lo, hi, out=x)] on a [float32] array:
    [minimum(maximum(v, lo), hi)], which lets a NaN through. *)
Definition clip1 (lo hi v : F32.t) : F32.t :=
  F32.minimum (F32.maximum v lo) hi.

(** [np.clip(x, -clip, clip, out=x)]: the two Python floats are converted
    to the type of the array. *)
Definition np_clip (x : list F32.t) (lo hi : Q) : list F32.t :=
  map (clip1 (F32.of_Q lo) (F32.of_Q hi)) x.

(** The length of the view [self._chunk_buf[:n]]. *)
Definition chunk_view_length (n : Z) : nat :=
  Z.to_nat (Py.clamp_index MAX_CHUNK n).

Section Generate.
Variable waveform : kind -> dict -> Q -> Z -> Q -> list F32.t.
Variable fails : kind -> dict -> Q -> Z -> Q -> option exn.

(** The loop [for c in comps: x += c.generate(t0=t0, n=n, fs=fs)]; the
    components are shared with the engine, so the ones visited keep the
    state [generate] left them in, also when a later step raises. *)
Fixpoint mix (t0 : Q) (n : Z) (fs : Q) (x : list F32.t) (comps : list Components.t)
    : result (list F32.t) * list Components.t :=
  match comps with
  | [] => (Ok x, [])
  | c :: rest =>
      let '(r, c') := generate waveform fails c t0 n fs in
      match r with
      | Raise e => (Raise e, c' :: rest)
      | Ok y =>
          match iadd x y with
          | Raise e => (Raise e, c' :: rest)
          | Ok x' =>
              let '(r', rest') := mix t0 n fs x' rest in
              (r', c' :: rest')
          end
      end
  end.

(** [generate_chunk]: the chunk and its start time (or the exception) and
    the engine after the call. *)
Definition generate_chunk (e : t) : result (list F32.t * Q) * t :=
  let fs := fs e in
  let n := chunk_size e in
  let paused := _paused e in
  let comps := components e in
  let clip := amplitude_clip e in
  if Qeq_bool fs 0 then (Raise ZeroDivisionError, e)
  else
    let t0 := (inject_Z (RealtimeClock.sample_index (clock e)) / fs)%Q in
    if paused then (Ok ([], t0), e)
    else
      let n := Z.min n MAX_CHUNK in
      let x := replicate (chunk_view_length n) F32.zero in
      match mix t0 n fs x comps with
      | (Raise err, comps') => (Raise err, set_components e comps')
      | (Ok x, comps') =>
          let x := if negb (Qeq_bool clip 0) && negb (Qle_bool clip 0)
                   then np_clip x (- clip) clip else x in
          let e' := set_components e comps' in
          (Ok (x, t0), set_clock e' (RealtimeClock.advance (clock e') n))
      end.
End Generate.

(** The calls of the control surface, and the engine they leave behind. *)
Inductive call :=
| SetGlobal (fs : option Q) (chunk_size : option Z) (amplitude_clip : option Q)
| Play
| Pause
| Reset
| AddComponent (comp_type : string) (params : option dict) (enabled : bool)
| RemoveComponent (idx : Z)
| SetComponentEnabled (idx : Z) (enabled : bool)
| UpdateComponentParams (idx : Z) (params : dict)
| ReplaceComponents (components_snap : list snap_entry)
| GenerateChunk.

Section Run.
Variable waveform : kind -> dict -> Q -> Z -> Q -> list F32.t.
Variable fails : kind -> dict -> Q -> Z -> Q -> option exn.

Definition exec (e : t) (c : call) : t :=
  match c with
  | SetGlobal a b c => set_global e a b c
  | Play => play e
  | Pause => pause e
  | Reset => reset e
  | AddComponent ty p en => snd (add_component e ty p en)
  | RemoveComponent i => remove_component e i
  | SetComponentEnabled i b => set_component_enabled e i b
  | UpdateComponentParams i p => update_component_params e i p
  | ReplaceComponents snap => replace_components e snap
  | GenerateChunk => snd (generate_chunk waveform fails e)
  end.

(** An engine built by [SignalEngine(clock)] and driven through its calls. *)
Definition run (calls : list call) : t :=
  fold_left exec calls (new RealtimeClock.new).
End Run.

End SignalEngine.

(** ** core/plugin_manager.py

    The interpreter and the file system are read through a [World]: what
    importing or reloading a module gives, and what the external plugin
    folder holds. The effect of one import on a later one is not modelled,
    nor is the [sys.path] entry [__init__] adds. *)

Module PluginManager.
Import Exn.

(** A value stored in [PLUGIN_META]: a string, or an object that cannot be
    a dict key (a list). *)
Inductive pyval := PyStr (s : string) | PyList (items : list string).

#[global] Instance pyval_eq_dec : EqDecision pyval.
Proof. solve_decision. Defined.

(** [PLUGIN_META]: a dict with string keys, or an object that has no
    [get] method. *)
Inductive meta_obj := MetaDict (d : gmap string pyval) | MetaOther.

Section Manager.
(** The plugin objects a [WaveletPlugin()] call builds. *)
Context {Obj : Type}.

(** A module object: its attributes [WaveletPlugin] (present or not; the
    outcome of calling the class) and [PLUGIN_META]. *)
Record ModuleType := {
  __name__ : string;
  WaveletPlugin : option (result Obj);
  PLUGIN_META : option meta_obj
}.

Record World := {
  in_sys_modules : string -> bool;
  import_module : string -> result ModuleType;
  reload : string -> result ModuleType;
  isdir : bool;
  listdir : list string
}.

Record PluginInfo := {
  id : pyval;
  meta : gmap string pyval;
  module : ModuleType;
  plugin_obj : Obj
}.

(** The records the module logger receives. *)
Inductive log_record :=
| LogInfo (name : option pyval) (pid : string)
| LogException (modname : string) (e : exn).

Record t := {
  wavelet_plugins : gmap string PluginInfo;
  log : list log_record
}.

Definition new : t := {| wavelet_plugins := ∅; log := [] |}.

Definition log_exception (pm : t) (modname : string) (e : exn) : t :=
  {| wavelet_plugins := wavelet_plugins pm;
     log := log pm ++ [LogException modname e] |}.

(** [importlib.reload(sys.modules[modname])] or
    [importlib.import_module(modname)] *)
Definition fetch (w : World) (modname : string) : result ModuleType :=
  if in_sys_modules w modname then reload w modname else import_module w modname.

(** The two stores happen in turn inside the [try]: the alias under the
    fallback id first, then the entry under the declared id, which raises
    [TypeError] when that id cannot be hashed; the alias stored before the
    exception stays in the registry. *)
Definition _load_wavelet_module (w : World) (pm : t) (modname plugin_id : string) : t :=
  match fetch w modname with
  | Raise e => log_exception pm modname e
  | Ok m =>
      match WaveletPlugin m, PLUGIN_META m with
      | Some plugin_cls, Some meta =>
          match plugin_cls with
          | Raise e => log_exception pm modname e
          | Ok obj =>
              match meta with
              | MetaOther => log_exception pm modname AttributeError
              | MetaDict meta =>
                  let pid := default (PyStr plugin_id) (meta !! "id") in
                  let info := {| id := pid; meta := meta; module := m;
                                 plugin_obj := obj |} in
                  let reg := wavelet_plugins pm in
                  let reg := if decide (pid <> PyStr plugin_id)
                             then <[plugin_id := info]> reg else reg in
                  match pid with
                  | PyStr k =>
                      {| wavelet_plugins := <[k := info]> reg;
                         log := log pm ++ [LogInfo (meta !! "name") k] |}
                  | PyList _ =>
                      log_exception {| wavelet_plugins := reg; log := log pm |}
                        modname TypeError
                  end
              end
          end
      | _, _ => log_exception pm modname ValueError
      end
  end.

Definition builtin_mods : list (string * string) :=
  [ ("wavelets.builtins.cwt_morlet", "builtin:cwt_morlet");
    ("wavelets.builtins.dwt_wpt", "builtin:dwt_wpt") ].

Definition _load_builtin_wavelets (w : World) (pm : t) : t :=
  fold_left (fun pm mp => _load_wavelet_module w pm mp.1 mp.2) builtin_mods pm.

(** [fn.endswith(suffix)] *)
Definition endswith (fn suffix : string) : bool :=
  let n := String.length fn in
  let m := String.length suffix in
  (m <=? n)%nat && String.eqb (String.substring (n - m) m fn) suffix.

(** [fn.startswith(p)] *)
Definition startswith (fn p : string) : bool := String.prefix p fn.

(** The module name and fallback id of an external plugin file. *)
Definition external_mod (fn : string) : string * string :=
  let modname :=
    String.append "plugins.wavelets."
      (String.substring 0 (String.length fn - 3) fn) in
  (modname, String.append "plugin:" modname).

Definition _load_external_wavelets (w : World) (pm : t) : t :=
  if negb (isdir w) then pm
  else
    fold_left
      (fun pm fn =>
         if negb (endswith fn ".py") || startswith fn "_" then pm
         else _load_wavelet_module w pm (external_mod fn).1 (external_mod fn).2)
      (listdir w) pm.

Definition reload_all (w : World) (pm : t) : t :=
  let pm := {| wavelet_plugins := ∅; log := log pm |} in
  let pm := _load_builtin_wavelets w pm in
  _load_external_wavelets w pm.

Definition get_wavelet (pm : t) (plugin_id : string) : option PluginInfo :=
  wavelet_plugins pm !! plugin_id.
End Manager.

Arguments ModuleType : clear implicits.
Arguments World : clear implicits.
Arguments PluginInfo : clear implicits.
Arguments t : clear implicits.

End PluginManager.

(** ** wavelets/builtins: the two built-in transforms

    The numerics of NumPy and PyWavelets, and the conversions between
    strings and numbers, are read through a [Numerics]. *)

Module Transforms.
Import Exn.

(** A transform parameter: the forms give strings (enum, str), floats,
    ints and bools. *)
Inductive pvalue := PStr (s : string) | PFloat (q : Q) | PInt (z : Z) | PBool (b : bool).

Abbreviation pdict := (gmap string pvalue).

(** The annotations of a result. *)
Inductive mvalue := MStr (s : string) | MInt (z : Z) | MList (l : list string).

(** core/wavelet_result.py *)
Record WaveletResult := {
  image : list (list Q);
  y_axis : list Q;
  x_axis : list Q;
  label_y : string;
  meta : gmap string mvalue
}.

Record Numerics := {
  str_of_float : Q -> string;
  str_of_int : Z -> string;
  float_of_str : string -> result Q;
  int_of_str : string -> result Z;
  str_lower : string -> string;
  (** [a ** b] on reals, for [np.geomspace] *)
  rpow : Q -> Q -> Q;
  np_sqrt : Q -> Q;
  (** [pywt.central_frequency(pywt.ContinuousWavelet(name))] *)
  central_frequency : string -> result Q;
  (** [pywt.cwt(x, scales, name, sampling_period)]: one row per scale *)
  pywt_cwt : list Q -> list Q -> string -> Q -> result (list (list Q));
  (** The DWT and WPT decompositions of a window of 16 samples or more:
      the body of the discrete transform after its length guard. *)
  dwt_wpt_decompose : list Q -> Q -> pdict -> result WaveletResult
}.

Section Conversions.
Variable nm : Numerics.

Definition pget (d : pdict) (k : string) (dflt : pvalue) : pvalue :=
  default dflt (d !! k).

(** [str(v)] *)
Definition py_str (v : pvalue) : string :=
  match v with
  | PStr s => s
  | PFloat q => str_of_float nm q
  | PInt z => str_of_int nm z
  | PBool b => if b then "True" else "False"
  end.

(** [float(v)] *)
Definition py_float (v : pvalue) : result Q :=
  match v with
  | PStr s => float_of_str nm s
  | PFloat q => Ok q
  | PInt z => Ok (inject_Z z)
  | PBool b => Ok (if b then 1%Q else 0%Q)
  end.

(** [int(v)] *)
Definition py_int (v : pvalue) : result Z :=
  match v with
  | PStr s => int_of_str nm s
  | PFloat q => Ok (Value.Qtruncate q)
  | PInt z => Ok z
  | PBool b => Ok (if b then 1 else 0)
  end.

Definition Qmin2 (a b : Q) : Q := if Qle_bool a b then a else b.
Definition Qmax2 (a b : Q) : Q := if Qle_bool b a then a else b.

(** [np.arange(n)] *)
Definition np_arange (n : nat) : list Q := map (fun i => inject_Z (Z.of_nat i)) (seq 0 n).

(** [np.linspace(a, b, n)] *)
Definition np_linspace (a b : Q) (n : nat) : list Q :=
  map (fun i => (a + inject_Z (Z.of_nat i) * ((b - a) / inject_Z (Z.of_nat n - 1)))%Q)
      (seq 0 n).

(** [np.geomspace(a, b, n)] *)
Definition np_geomspace (a b : Q) (n : nat) : list Q :=
  map (fun i => (a * rpow nm (b / a)
                       (inject_Z (Z.of_nat i) / inject_Z (Z.of_nat n - 1)))%Q)
      (seq 0 n).
End Conversions.

(** wavelets/builtins/cwt_morlet.py *)
Module CWT.

Section Transform.
Variable nm : Numerics.

(** [a.astype(np.float32)]; a value beyond the range of [float32] becomes
    an infinity in NumPy and is outside this definition: nothing below
    is stated of the values of a grid. *)
Definition astype_float32 (l : list Q) : list Q := map F32.round l.

Definition _freq_grid (f_min f_max : Q) (n : Z) (spacing : string) : list Q :=
  let f_min := Qmax2 f_min 0.000001 in
  let f_max := Qmax2 f_max (f_min * 1.001) in
  let n := Z.max 2 n in
  let spacing := str_lower nm spacing in
  if String.eqb spacing "log"
  then astype_float32 (np_geomspace nm f_min f_max (Z.to_nat n))
  else astype_float32 (np_linspace f_min f_max (Z.to_nat n)).

(** The frequencies are cast to [float32] first; the Python floats
    [cf * fs] (a float product) and [1e-6] meet [float32] arrays and are
    converted to their type, so the quotient and both maxima are taken in
    [float32]. *)
Definition _scales_from_freqs (wavelet_name : string) (freqs_hz : list Q) (fs : Q)
    : result (list Q) :=
  match central_frequency nm wavelet_name with
  | Raise e => Raise e
  | Ok cf =>
      let floor32 := F32.round 0.000001 in
      Ok (astype_float32
            (map (fun f =>
                    let scale :=
                      F32.round (F32.round (F64.mul cf fs) / Qmax2 f floor32) in
                    Qmax2 scale floor32)
                 (astype_float32 freqs_hz)))
  end.

Definition cells (img : list (list Q)) : list Q := concat img.

Definition np_max (l : list Q) : Q :=
  match l with
  | [] => 0%Q
  | v :: rest => fold_left Qmax2 rest v
  end.

Definition np_mean (l : list Q) : Q :=
  (fold_left Qplus l 0 / inject_Z (Z.of_nat (length l)))%Q.

Definition np_std (l : list Q) : Q :=
  let mu := np_mean l in
  np_sqrt nm (np_mean (map (fun v => ((v - mu) * (v - mu))%Q) l)).

Definition normalize_image (normalize : string) (img : list (list Q)) : list (list Q) :=
  if String.eqb normalize "max" then
    let m := if negb (Nat.eqb (length (cells img)) 0)
                && negb (Qle_bool (np_max (cells img)) 0)
             then np_max (cells img) else 1.0%Q in
    if negb (Qle_bool m 0) then map (map (fun v => (v / m)%Q)) img else img
  else if String.eqb normalize "zscore" then
    let mu := np_mean (cells img) in
    let sd := np_std (cells img) in
    if negb (Qle_bool sd 0.000000001) then map (map (fun v => ((v - mu) / sd)%Q)) img
    else img
  else img.

Definition transform (x : list Q) (fs : Q) (params : pdict) : result WaveletResult :=
  let wname := py_str nm (pget params "wavelet" (PStr "morl")) in
  let magnitude := py_str nm (pget params "magnitude" (PStr "abs")) in
  let normalize := py_str nm (pget params "normalize" (PStr "none")) in
  match py_float nm (pget params "f_min" (PFloat 5.0)) with
  | Raise e => Raise e
  | Ok f_min =>
  match py_float nm (pget params "f_max" (PFloat (Qmin2 (fs / 2.0) 300.0))) with
  | Raise e => Raise e
  | Ok f_max =>
  let f_max := Qmin2 f_max (fs / 2.0 - 0.000001) in
  match py_int nm (pget params "n_freqs" (PInt 128)) with
  | Raise e => Raise e
  | Ok n_freqs =>
  let spacing := py_str nm (pget params "freq_spacing" (PStr "linear")) in
  let freqs_target := _freq_grid f_min f_max n_freqs spacing in
  match _scales_from_freqs wname freqs_target fs with
  | Raise e => Raise e
  | Ok scales_desc =>
  let scales_asc := rev scales_desc in
  if Qeq_bool fs 0 then Raise ZeroDivisionError
  else
  match pywt_cwt nm x scales_asc wname (1.0 / fs) with
  | Raise e => Raise e
  | Ok coefs =>
  let coefs := rev coefs in
  let img := if String.eqb magnitude "abs" then map (map Qabs) coefs
             else map (map (fun c => (Qabs c * Qabs c)%Q)) coefs in
  let img := normalize_image normalize img in
  let x_axis := map (fun i => (i / fs)%Q) (np_arange (length x)) in
  Ok {| image := img;
        y_axis := freqs_target;
        x_axis := x_axis;
        label_y := "Hz";
        meta := <["freq_spacing" := MStr spacing]>
                  (<["normalize" := MStr normalize]>
                     (<["magnitude" := MStr magnitude]>
                        (<["wavelet" := MStr wname]>
                           (<["mode" := MStr "CWT"]> ∅)))) |}
  end end end end end.
End Transform.

End CWT.

(** wavelets/builtins/dwt_wpt.py *)
Module DWT.

Section Transform.
Variable nm : Numerics.

Definition transform (x : list Q) (fs : Q) (params : pdict) : result WaveletResult :=
  let n := length x in
  if (n <? 16)%nat then
    let img := [replicate (Nat.max n 1) 0%Q] in
    if Qeq_bool fs 0 then Raise ZeroDivisionError
    else
      Ok {| image := img;
            y_axis := [0%Q];
            x_axis := np_linspace 0 (inject_Z (Z.of_nat n) / fs) (Nat.max n 1);
            label_y := "level/node";
            meta := ∅ |}
  else dwt_wpt_decompose nm x fs params.
End Transform.

End DWT.

(** A trivial result: one row, every cell zero. *)
Definition one_row_zero (r : WaveletResult) : Prop :=
  exists cols, image r = [replicate cols 0%Q] /\ length (y_axis r) = 1%nat.

End Transforms.

(** * Properties *)

(** ** Slices with bounds inside the sequence *)

Module PyFacts.
Import Py.

Section SliceFacts.
Context {A : Type}.
Implicit Types (l x : list A) (a b c : nat).

Lemma clamp_index_inside (len i : Z) : 0 <= i <= len -> clamp_index len i = i.
Proof.
  intros Hi. unfold clamp_index.
  destruct (Z.ltb_spec i 0); lia.
Qed.

Lemma clamp_index_back (len i : Z) :
  0 < i <= len -> clamp_index len (- i) = len - i.
Proof.
  intros Hi. unfold clamp_index.
  destruct (Z.ltb_spec (- i) 0); lia.
Qed.

Lemma slice_between a b l :
  (a <= b <= length l)%nat ->
  slice (Some (Z.of_nat a)) (Some (Z.of_nat b)) l = take (b - a) (drop a l).
Proof.
  intros Hab. unfold slice, slice_start, slice_stop.
  rewrite !clamp_index_inside by lia.
  f_equal; [lia | f_equal; lia].
Qed.

Lemma slice_from a l :
  (a <= length l)%nat -> slice (Some (Z.of_nat a)) None l = drop a l.
Proof.
  intros Ha. unfold slice, slice_start, slice_stop.
  rewrite clamp_index_inside by lia.
  rewrite Nat2Z.id. apply take_ge. rewrite length_drop. lia.
Qed.

Lemma slice_upto b l :
  (b <= length l)%nat -> slice None (Some (Z.of_nat b)) l = take b l.
Proof.
  intros Hb. unfold slice, slice_start, slice_stop.
  rewrite clamp_index_inside by lia.
  simpl. f_equal. lia.
Qed.

Lemma slice_last c l :
  (0 < c <= length l)%nat -> slice (Some (- Z.of_nat c)) None l = lastn c l.
Proof.
  intros Hc. unfold slice, slice_start, slice_stop, lastn.
  rewrite clamp_index_back by lia.
  replace (Z.to_nat (Z.of_nat (length l) - Z.of_nat c)) with (length l - c)%nat by lia.
  apply take_ge. rewrite length_drop. lia.
Qed.

Lemma assign_slice_between a b x l :
  (a <= b <= length l)%nat -> length x = (b - a)%nat ->
  assign_slice (Some (Z.of_nat a)) (Some (Z.of_nat b)) x l
  = Some (take a l ++ x ++ drop b l).
Proof.
  intros Hab Hx. unfold assign_slice, slice_start, slice_stop.
  rewrite !clamp_index_inside by lia.
  rewrite decide_True by lia.
  rewrite Nat2Z.id.
  by replace (a + Z.to_nat (Z.of_nat b - Z.of_nat a))%nat with b by lia.
Qed.

Lemma assign_slice_from a x l :
  (a <= length l)%nat -> length x = (length l - a)%nat ->
  assign_slice (Some (Z.of_nat a)) None x l = Some (take a l ++ x).
Proof.
  intros Ha Hx. unfold assign_slice, slice_start, slice_stop.
  rewrite clamp_index_inside by lia.
  rewrite decide_True by lia.
  rewrite Nat2Z.id, drop_ge by lia. by rewrite app_nil_r.
Qed.

Lemma assign_slice_upto b x l :
  (b <= length l)%nat -> length x = b ->
  assign_slice None (Some (Z.of_nat b)) x l = Some (x ++ drop b l).
Proof.
  intros Hb Hx. unfold assign_slice, slice_start, slice_stop.
  rewrite clamp_index_inside by lia.
  rewrite decide_True by lia.
  simpl. by replace (Z.to_nat (Z.of_nat b - 0)) with b by lia.
Qed.

Lemma assign_slice_all x l :
  length x = length l -> assign_slice None None x l = Some x.
Proof.
  intros Hx. unfold assign_slice, slice_start, slice_stop.
  rewrite decide_True by lia.
  simpl. rewrite drop_ge by lia. by rewrite app_nil_r.
Qed.

Lemma length_lastn c l : length (lastn c l) = Nat.min c (length l).
Proof. unfold lastn. rewrite length_drop. lia. Qed.

Lemma lastn_all c l : (length l <= c)%nat -> lastn c l = l.
Proof.
  intros Hc. unfold lastn.
  replace (length l - c)%nat with 0%nat by lia. done.
Qed.

Lemma lastn_app c l x :
  (c <= length x)%nat -> lastn c (l ++ x) = lastn c x.
Proof.
  intros Hc. unfold lastn. rewrite length_app.
  rewrite drop_app_ge by lia. f_equal. lia.
Qed.

Lemma lastn_lastn c d l : (c <= d)%nat -> lastn c (lastn d l) = lastn c l.
Proof.
  intros Hcd. unfold lastn. rewrite length_drop, drop_drop. f_equal. lia.
Qed.

Lemma lastn_lastn_app c l x : lastn c (lastn c l ++ x) = lastn c (l ++ x).
Proof.
  destruct (decide (length l <= c)%nat) as [Hle | Hgt].
  { by rewrite (lastn_all c l). }
  unfold lastn at 1 3. rewrite !length_app, length_lastn, !drop_app.
  rewrite length_lastn. unfold lastn. rewrite drop_drop.
  f_equal; f_equal; lia.
Qed.

Lemma lastn_0 l : lastn 0 l = [].
Proof. unfold lastn. apply drop_ge. lia. Qed.
End SliceFacts.

End PyFacts.

(** ** The ring buffer keeps the most recent samples *)

Module RingBufferFacts.
Import Py PyFacts RingBuffer.

(** Side conditions on the lengths of pieces of the storage. *)
Ltac lengths :=
  repeat first
    [ rewrite length_app | rewrite length_take | rewrite length_drop
    | rewrite length_replicate | rewrite length_lastn ];
  lia.

Section RingFacts.
Context {A : Type} (zero : A).
Implicit Types (rb : RingBuffer.t A) (x hist : list A).

Lemma length_view rb : length (view rb) = length (buf rb).
Proof. unfold view. rewrite length_app, length_drop, length_take. lia. Qed.

Lemma wf_new cap : 0 < cap -> exists rb, new zero cap = Some rb /\ wf rb /\ capacity rb = cap.
Proof.
  intros Hc. unfold new. destruct (Z.ltb_spec cap 0); [lia |].
  eexists; split; [done |]. split; [| done].
  constructor; simpl; rewrite ?length_replicate; lia.
Qed.

Lemma wf_clear rb : wf rb -> wf (clear zero rb).
Proof.
  intros [? ? ? ?]. constructor; simpl; unfold fill; rewrite ?length_replicate; lia.
Qed.

Lemma view_clear rb : view (clear zero rb) = replicate (length (buf rb)) zero.
Proof. unfold view, clear, fill. simpl. by rewrite app_nil_r. Qed.

(** One [append] never raises on storage [b] with cursor [wn] inside it, and
    slides the view: the new view is the last [length b] cells of the old
    view followed by the batch. *)
Lemma append_view_nat (b : list A) (wn : nat) (f : Z) x :
  (wn < length b)%nat -> 0 <= f <= Z.of_nat (length b) ->
  exists b' wn',
    append (mk (Z.of_nat (length b)) b (Z.of_nat wn) f) x
    = Some (mk (Z.of_nat (length b)) b' (Z.of_nat wn')
               (Z.min (Z.of_nat (length b)) (f + Z.of_nat (length x))))
    /\ length b' = length b /\ (wn' < length b)%nat
    /\ drop wn' b' ++ take wn' b'
       = lastn (length b) ((drop wn b ++ take wn b) ++ x).
Proof.
  intros Hw Hf. unfold append. simpl.
  destruct (Z.eqb_spec (Z.of_nat (length x)) 0) as [Hn0 | Hn0].
  { exists b, wn. split; [f_equal; f_equal; lia |]. split; [done |].
    split; [done |].
    destruct x; [| simpl in Hn0; lia].
    rewrite app_nil_r. symmetry. apply lastn_all.
    rewrite length_app, length_drop, length_take. lia. }
  destruct (Z.leb_spec (Z.of_nat (length b)) (Z.of_nat (length x)))
    as [Hbig | Hsmall].
  - (* the batch alone fills the storage *)
    rewrite slice_last by lia.
    rewrite assign_slice_all by lengths. simpl.
    exists (lastn (length b) x), 0%nat.
    split; [f_equal; f_equal; lia |].
    split; [lengths |]. split; [lia |].
    rewrite drop_0, take_0, app_nil_r. symmetry. apply lastn_app. lia.
  - destruct (Z.leb_spec (Z.of_nat wn + Z.of_nat (length x))
                (Z.of_nat (length b))) as [Hfit | Hwrap].
    + (* one contiguous copy *)
      rewrite <- Nat2Z.inj_add.
      rewrite assign_slice_between by lia. simpl.
      unfold lastn. rewrite !length_app, length_drop, length_take.
      replace (length b - wn + Nat.min wn (length b) + length x - length b)%nat
        with (length x) by lia.
      destruct (decide (wn + length x = length b)%nat) as [Hend | Hend].
      * exists (take wn b ++ x ++ drop (wn + length x) b), 0%nat.
        split; [rewrite Hend, Z_mod_same_full; done |].
        split; [lengths |].
        split; [lia |].
        rewrite drop_0, take_0, app_nil_r.
        rewrite Hend, drop_all, app_nil_r.
        rewrite <- app_assoc, drop_app_length'; [done |].
        rewrite length_drop. lia.
      * exists (take wn b ++ x ++ drop (wn + length x) b), (wn + length x)%nat.
        split; [rewrite Z.mod_small by lia; done |].
        split; [lengths |].
        split; [lia |].
        rewrite app_assoc.
        rewrite drop_app_length', take_app_length'
          by lengths.
        rewrite <- !app_assoc.
        rewrite drop_app_le by lengths.
        by rewrite drop_drop.
    + (* the copy is split at the end of the storage *)
      replace (Z.of_nat (length b) - Z.of_nat wn)
        with (Z.of_nat (length b - wn)) by lia.
      rewrite slice_upto by lia.
      rewrite assign_slice_from by lengths. simpl.
      replace (Z.of_nat wn + Z.of_nat (length x) - Z.of_nat (length b))
        with (Z.of_nat (wn + length x - length b)) by lia.
      rewrite slice_from by lia.
      rewrite assign_slice_upto
        by lengths. simpl.
      exists (drop (length b - wn) x
              ++ drop (wn + length x - length b)
                   (take wn b ++ take (length b - wn) x)),
             (wn + length x - length b)%nat.
      split.
      { do 2 f_equal.
        replace (Z.of_nat wn + Z.of_nat (length x))
          with (Z.of_nat (wn + length x - length b) + 1 * Z.of_nat (length b))
          by lia.
        rewrite Z.mod_add by lia. apply Z.mod_small. lia. }
      split; [lengths |].
      split; [lia |].
      rewrite drop_app_length', take_app_length' by lengths.
      rewrite drop_app_le by lengths.
      unfold lastn. rewrite !length_app, length_drop, length_take.
      replace (length b - wn + Nat.min wn (length b) + length x - length b)%nat
        with (length x) by lia.
      rewrite <- !app_assoc.
      rewrite drop_app_ge by lengths.
      rewrite length_drop.
      rewrite drop_app_le by lengths.
      replace (length x - (length b - wn))%nat
        with (wn + length x - length b)%nat by lia.
      by rewrite take_drop.
Qed.

(** One [append] on a well-formed buffer never raises, keeps it well formed
    and slides the view. *)
Lemma append_view rb x :
  wf rb ->
  exists rb', append rb x = Some rb' /\ wf rb' /\ capacity rb' = capacity rb
    /\ filled rb' = Z.min (capacity rb) (filled rb + Z.of_nat (length x))
    /\ view rb' = lastn (Z.to_nat (capacity rb)) (view rb ++ x).
Proof.
  intros [Hcap Hbuf Hw Hf]. destruct rb as [cap b w f]; simpl in *.
  destruct (append_view_nat b (Z.to_nat w) f x) as (b' & wn' & Happ & Hb' & Hw' & Hv);
    [lia | lia |].
  rewrite Z2Nat.id, Hbuf in Happ by lia. rewrite Happ.
  eexists; split; [done |]. simpl. split.
  { constructor; simpl; lia. }
  split; [done |]. split; [done |].
  unfold view; simpl. rewrite Nat2Z.id, Hv. f_equal. lia.
Qed.

(** [get_last] reads the end of the view. *)
Lemma get_last_view rb k :
  wf rb -> get_last rb k = lastn (Z.to_nat (Z.min k (filled rb))) (view rb).
Proof.
  intros [Hcap Hbuf Hw Hf]. unfold get_last, view.
  destruct rb as [cap b w f]; simpl in *.
  destruct (Z.leb_spec (Z.min k f) 0) as [Hn | Hn].
  { replace (Z.to_nat (Z.min k f)) with 0%nat by lia. by rewrite lastn_0. }
  set (n := Z.to_nat (Z.min k f)). set (wn := Z.to_nat w).
  assert (Hn' : Z.min k f = Z.of_nat n) by lia.
  assert (Hw' : w = Z.of_nat wn) by lia.
  assert (Hc : cap = Z.of_nat (length b)) by lia.
  rewrite Hn', Hw', Hc. clearbody n wn. subst cap w.
  unfold lastn. rewrite length_app, length_drop, length_take.
  replace (length b - wn + Nat.min wn (length b) - n)%nat
    with (length b - n)%nat by lia.
  destruct (decide (n <= wn)%nat) as [Hle | Hgt].
  - rewrite Z.mod_small by lia.
    destruct (Z.ltb_spec (Z.of_nat wn - Z.of_nat n) (Z.of_nat wn)); [| lia].
    replace (Z.of_nat wn - Z.of_nat n) with (Z.of_nat (wn - n)) by lia.
    rewrite slice_between by lia.
    rewrite drop_app_ge by lengths.
    rewrite length_drop, take_drop_commute.
    f_equal; [lia | f_equal; lia].
  - replace ((Z.of_nat wn - Z.of_nat n) `mod` Z.of_nat (length b))
      with (Z.of_nat (wn + length b - n)).
    2:{ replace (Z.of_nat wn - Z.of_nat n)
          with (Z.of_nat (wn + length b - n) + (-1) * Z.of_nat (length b)) by lia.
        rewrite Z.mod_add by lia. symmetry. apply Z.mod_small. lia. }
    destruct (Z.ltb_spec (Z.of_nat (wn + length b - n)) (Z.of_nat wn)); [lia |].
    rewrite slice_from, slice_upto by lia.
    rewrite drop_app_le by lengths.
    rewrite drop_drop. do 2 f_equal. lia.
Qed.

(** A run of appends on a well-formed buffer never raises; the view slides
    over the concatenation of the batches. *)
Lemma appends_view rb batches :
  wf rb ->
  exists rb', appends rb batches = Some rb' /\ wf rb'
    /\ capacity rb' = capacity rb
    /\ filled rb'
       = Z.min (capacity rb) (filled rb + Z.of_nat (length (concat batches)))
    /\ view rb' = lastn (Z.to_nat (capacity rb)) (view rb ++ concat batches).
Proof.
  revert rb. induction batches as [| x rest IH]; intros rb Hwf.
  - exists rb. simpl. split; [done |]. split; [done |]. split; [done |].
    destruct Hwf. split; [lia |].
    rewrite app_nil_r. symmetry. apply lastn_all. rewrite length_view. lia.
  - destruct (append_view rb x Hwf) as (rb1 & Happ & Hwf1 & Hc1 & Hf1 & Hv1).
    destruct (IH rb1 Hwf1) as (rb' & Hrun & Hwf' & Hc' & Hf' & Hv').
    exists rb'. simpl. rewrite Happ. simpl.
    split; [done |]. split; [done |]. split; [congruence |].
    destruct Hwf. split.
    + rewrite Hf', Hc1, Hf1, length_app. lia.
    + rewrite Hv', Hc1, Hv1, lastn_lastn_app. by rewrite <- app_assoc.
Qed.

(** C1. After [clear] and any run of appends the call never raises,
    [filled] is the number of samples appended capped at the capacity, and
    [get_last k] is exactly the most recent [min k filled] appended samples
    in arrival order, for every [k]; in particular, while the total appended
    length is at most the capacity, [get_last k] is exactly the last [k]
    appended samples for every [0 <= k <= filled]. *)
Theorem get_last_recent rb0 batches :
  wf rb0 ->
  exists rb,
    appends (clear zero rb0) batches = Some rb
    /\ filled rb = Z.min (capacity rb0) (Z.of_nat (length (concat batches)))
    /\ (forall k, get_last rb k
                  = lastn (Z.to_nat (Z.min k (filled rb))) (concat batches))
    /\ (Z.of_nat (length (concat batches)) <= capacity rb0 ->
        forall k, 0 <= k <= filled rb ->
                  get_last rb k = lastn (Z.to_nat k) (concat batches)).
Proof.
  intros Hwf0. pose proof (wf_clear rb0 Hwf0) as Hwfc.
  destruct (appends_view (clear zero rb0) batches Hwfc)
    as (rb & Hrun & Hwf & Hc & Hf & Hv).
  simpl in Hc, Hf. rewrite Z.add_0_l in Hf.
  assert (Hget : forall k, get_last rb k
             = lastn (Z.to_nat (Z.min k (filled rb))) (concat batches)).
  { intros k. rewrite get_last_view by done.
    rewrite Hv, view_clear. simpl.
    destruct Hwf0.
    rewrite lastn_lastn by lia. apply lastn_app. lia. }
  exists rb. split; [done |]. split; [done |]. split; [done |].
  intros _ k Hk. rewrite Hget. do 2 f_equal. lia.
Qed.

(** C2. Appending a batch at least as long as the capacity never raises and
    leaves exactly the last [capacity] elements of the batch in storage,
    with the cursor at 0 and [filled = capacity], whatever the buffer held
    before; [get_last capacity] then returns exactly these elements. *)
Theorem append_overflow rb x :
  wf rb -> capacity rb <= Z.of_nat (length x) ->
  let rb' := {| capacity := capacity rb;
                buf := lastn (Z.to_nat (capacity rb)) x;
                write := 0; filled := capacity rb |} in
  append rb x = Some rb'
  /\ get_last rb' (capacity rb) = lastn (Z.to_nat (capacity rb)) x.
Proof.
  intros Hwf Hlen rb'. pose proof Hwf as [Hcap Hbuf Hw Hf].
  assert (Hwf' : wf rb').
  { constructor; simpl; rewrite ?length_lastn; lia. }
  split.
  - unfold append.
    destruct (Z.eqb_spec (Z.of_nat (length x)) 0); [lia |].
    destruct (Z.leb_spec (capacity rb) (Z.of_nat (length x))); [| lia].
    replace (capacity rb) with (Z.of_nat (Z.to_nat (capacity rb))) at 1 by lia.
    rewrite slice_last by lia.
    by rewrite assign_slice_all by (rewrite length_lastn; lia).
  - rewrite get_last_view by done. unfold view. simpl.
    rewrite app_nil_r, Z.min_id. apply lastn_all. rewrite length_lastn. lia.
Qed.
End RingFacts.

End RingBufferFacts.

(** ** The signal engine: pause, clipping, index guards *)

Module SignalEngineFacts.
Import Exn Components SignalEngine.






(** *** Rounding keeps the sign *)







Section EngineFacts.
Variable waveform : kind -> dict -> Q -> Z -> Q -> list F32.t.
Variable fails : kind -> dict -> Q -> Z -> Q -> option exn.
Implicit Types (e : SignalEngine.t) (c : Components.t) (x y : list F32.t).

Lemma Qle_bool_false a b : Qle_bool a b = false -> (b < a)%Q.
Proof.
  intros Hf. destruct (Qlt_le_dec b a) as [Hlt | Hge]; [done |].
  apply Qle_bool_iff in Hge. congruence.
Qed.






Lemma chunk_view_length_inside n :
  0 <= n <= MAX_CHUNK -> chunk_view_length n = Z.to_nat n.
Proof.
  intros Hn. unfold chunk_view_length. by rewrite PyFacts.clamp_index_inside.
Qed.

Lemma length_iadd x y r : iadd x y = Ok r -> length r = length x.
Proof.
  unfold iadd. case_decide as Hlen.
  - intros [= <-]. rewrite length_zip_with. lia.
  - destruct y as [| v [| ? ?]]; try done.
    intros [= <-]. by rewrite length_map.
Qed.

(** [generate] never touches the class or the public [state]. *)
Lemma generate_state c t0 n fs :
  kind_of (snd (generate waveform fails c t0 n fs)) = kind_of c
  /\ state (snd (generate waveform fails c t0 n fs)) = state c.
Proof.
  unfold generate. destruct (negb (enabled (state c))); [done |].
  destruct c as [s ls | s cur tgt | s | s | s]; simpl.
  - destruct (_ && _); [done |]. by destruct (_ || _).
  - by destruct (sine_alpha _ n fs).
  - by destruct (n <? 0).
  - destruct (n <? 0); [done |]. destruct (_ && _); [done |].
    by destruct (fails _ _ _ _ _).
  - destruct (n <? 0); [done |]. by destruct (fails _ _ _ _ _).
Qed.

Section Contract.
(** The contract of [generate]: a chunk of [n] samples. *)
Hypothesis waveform_length :
  forall k p t0 n fs, length (waveform k p t0 n fs) = Z.to_nat n.


End Contract.

Lemma mix_state t0 n fs comps x :
  map (fun c => (kind_of c, state c)) (snd (mix waveform fails t0 n fs x comps))
  = map (fun c => (kind_of c, state c)) comps.
Proof.
  revert x. induction comps as [| c rest IH]; intros x; [done |].
  simpl. pose proof (generate_state c t0 n fs) as [Hk Hs].
  destruct (generate waveform fails c t0 n fs) as [r c']. simpl in Hk, Hs.
  destruct r as [y | err]; simpl; [| by rewrite Hk, Hs].
  destruct (iadd x y) as [x' | err]; simpl; [| by rewrite Hk, Hs].
  specialize (IH x').
  destruct (mix waveform fails t0 n fs x' rest) as [r' rest']. simpl in *.
  by rewrite Hk, Hs, IH.
Qed.



(** C10. With an index outside [0, len(components)) the three indexed
    calls return without raising and leave the engine, its component list
    and every component exactly as they were. *)
Theorem index_out_of_range_noop e idx enabled params :
  idx < 0 \/ Z.of_nat (length (components e)) <= idx ->
  remove_component e idx = e
  /\ set_component_enabled e idx enabled = e
  /\ update_component_params e idx params = e.
Proof.
  intros Hidx.
  assert (Hr : in_range e idx = false).
  { unfold in_range. apply andb_false_iff.
    destruct Hidx; [left; apply Z.leb_gt | right; apply Z.ltb_ge]; lia. }
  unfold remove_component, set_component_enabled, update_component_params.
  by rewrite Hr.
Qed.
End EngineFacts.

End SignalEngineFacts.

(** ** Saved configurations: snapshot and rebuild *)

Module ConfigFacts.
Import Exn Components SignalEngine.

(** What a snapshot records of a component: class, flag, parameters. *)
Definition public (c : Components.t) : kind * bool * dict :=
  (kind_of c, enabled (state c), params (state c)).

(** The default a schema gives to a key, if it lists the key. *)
Definition schema_default (sch : list Schema.ParamSpec) (k : string) : option Value.t :=
  Schema.default <$> List.find (fun s => bool_decide (Schema.key s = k)) sch.

(** The component [replace_components] builds from one snapshot entry, in
    the words of the specification: nothing for an unknown kind, otherwise
    an object of that kind holding the entry's flag and parameters. *)
Definition rebuild (c : snap_entry) : option Components.t :=
  ty ← s_type c;
  cls ← BUILTIN_COMPONENTS !! ty;
  Some (construct cls
          {| enabled := Value.py_bool (default (Value.VBool true) (s_enabled c));
             params := fill_missing (schema cls) (default ∅ (s_params c)) |}).

(** Every key of the component's schema has a value. *)
Definition complete_state (ks : kind * ComponentState) : Prop :=
  forall s, s ∈ schema ks.1 -> is_Some (params ks.2 !! Schema.key s).

Definition complete (c : Components.t) : Prop :=
  complete_state (kind_of c, state c).

Definition entry_of (c : Components.t) : snap_entry :=
  {| s_type := Some (TYPE (kind_of c));
     s_name := Some (NAME (kind_of c));
     s_enabled := Some (Value.VBool (enabled (state c)));
     s_params := Some (params (state c)) |}.

Lemma fold_left_snoc {X Y} (f : X -> Y) (l : list X) (init : list Y) :
  fold_left (fun acc c => acc ++ [f c]) l init = init ++ map f l.
Proof.
  revert init. induction l as [| c l IH]; intros init; simpl.
  - by rewrite app_nil_r.
  - rewrite IH. by rewrite <- app_assoc.
Qed.

Lemma fold_left_snoc_opt {X Y} (g : X -> option Y) (l : list X) (init : list Y) :
  fold_left (fun acc c => match g c with None => acc | Some y => acc ++ [y] end)
    l init
  = init ++ omap g l.
Proof.
  revert init. induction l as [| c l IH]; intros init; simpl.
  - by rewrite app_nil_r.
  - rewrite IH. destruct (g c); simpl; [by rewrite <- app_assoc | done].
Qed.

Lemma fold_left_pointwise {X Y} (f g : Y -> X -> Y) (l : list X) (init : Y) :
  (forall acc c, f acc c = g acc c) -> fold_left f l init = fold_left g l init.
Proof.
  intros Hfg. revert init. induction l as [| c l IH]; intros init; [done |].
  simpl. by rewrite Hfg, IH.
Qed.

Lemma snapshot_components_map e :
  snapshot_components e = map entry_of (components e).
Proof. unfold snapshot_components. by rewrite fold_left_snoc. Qed.

Lemma replace_components_omap e snap :
  components (replace_components e snap) = omap rebuild snap.
Proof.
  unfold replace_components. simpl.
  rewrite <- (app_nil_l (omap rebuild snap)).
  rewrite <- (fold_left_snoc_opt rebuild snap []).
  apply fold_left_pointwise. intros cs c. unfold rebuild.
  destruct (s_type c) as [ty |]; simpl; [| done].
  by destruct (BUILTIN_COMPONENTS !! ty).
Qed.

Lemma builtin_TYPE k : BUILTIN_COMPONENTS !! TYPE k = Some k.
Proof. by destruct k. Qed.

Lemma kind_of_construct k s : kind_of (construct k s) = k.
Proof. by destruct k. Qed.

Lemma state_construct k s : state (construct k s) = s.
Proof. by destruct k. Qed.

Lemma state_set_state c s : state (set_state c s) = s.
Proof. by destruct c. Qed.

Lemma kind_of_set_state c s : kind_of (set_state c s) = kind_of c.
Proof. by destruct c. Qed.

(** A lookup in the filled dict: the entry's own value, else the default. *)
Lemma fill_missing_lookup sch (d : dict) k :
  fill_missing sch d !! k
  = match d !! k with
    | Some v => Some v
    | None => schema_default sch k
    end.
Proof.
  revert d. induction sch as [| s rest IH]; intros d.
  { simpl. unfold schema_default. simpl. by destruct (d !! k). }
  unfold fill_missing. simpl. fold (fill_missing rest).
  unfold schema_default. simpl. fold (schema_default rest k).
  destruct (d !! Schema.key s) as [w |] eqn:Hs.
  - rewrite IH. destruct (d !! k) as [v |] eqn:Hk; [done |].
    case_bool_decide as Heq; [congruence | done].
  - rewrite IH. case_bool_decide as Heq.
    + subst k. by rewrite lookup_insert_eq, Hs.
    + by rewrite lookup_insert_ne.
Qed.

Lemma fill_missing_complete sch (d : dict) :
  (forall s, s ∈ sch -> is_Some (d !! Schema.key s)) -> fill_missing sch d = d.
Proof.
  induction sch as [| s rest IH]; intros Hall; [done |].
  unfold fill_missing. simpl. fold (fill_missing rest).
  destruct (Hall s) as [w Hw]; [by left |]. rewrite Hw.
  apply IH. intros s' Hs'. apply Hall. by right.
Qed.

Lemma fill_missing_all sch (d : dict) s :
  s ∈ sch -> is_Some (fill_missing sch d !! Schema.key s).
Proof.
  intros Hs. rewrite fill_missing_lookup.
  destruct (d !! Schema.key s); [done |].
  unfold schema_default.
  destruct (List.find _ sch) as [s' |] eqn:Hfind; [done |].
  apply list_elem_of_In in Hs.
  pose proof (List.find_none _ _ Hfind _ Hs) as Hnone. simpl in Hnone.
  by case_bool_decide.
Qed.

Lemma store_defaults_keeps sch (d : dict) k :
  is_Some (d !! k) -> is_Some (store_defaults sch d !! k).
Proof.
  revert d. induction sch as [| s rest IH]; intros d Hd; [done |].
  unfold store_defaults. simpl. apply IH.
  rewrite lookup_insert. case_decide; [done | done].
Qed.

Lemma store_defaults_all sch (d : dict) s :
  s ∈ sch -> is_Some (store_defaults sch d !! Schema.key s).
Proof.
  revert d. induction sch as [| s' rest IH]; intros d Hs.
  { by apply elem_of_nil in Hs. }
  unfold store_defaults. simpl. apply elem_of_cons in Hs as [-> | Hs].
  - apply store_defaults_keeps. by rewrite lookup_insert_eq.
  - by apply IH.
Qed.

Lemma dict_update_keeps (d new : dict) k :
  is_Some (d !! k) -> is_Some (dict_update d new !! k).
Proof.
  intros Hd. unfold dict_update. apply lookup_union_is_Some. by right.
Qed.

Lemma complete_rebuild c obj : rebuild c = Some obj -> complete obj.
Proof.
  unfold rebuild. destruct (s_type c) as [ty |]; simpl; [| done].
  destruct (BUILTIN_COMPONENTS !! ty) as [cls |]; simpl; [| done].
  intros [= <-]. unfold complete, complete_state.
  rewrite kind_of_construct, state_construct. simpl.
  intros s Hs. by apply fill_missing_all.
Qed.

Section Reachable.
Variable waveform : kind -> dict -> Q -> Z -> Q -> list F32.t.
Variable fails : kind -> dict -> Q -> Z -> Q -> option exn.

(** Every call of the control surface keeps the components complete. *)
Lemma exec_complete e c :
  Forall complete (components e) ->
  Forall complete (components (exec waveform fails e c)).
Proof.
  intros Hall. destruct c as [a b c | | | | ty p en | i | i b | i p | snap |];
    unfold exec; try done.
  - (* add_component *)
    unfold add_component. destruct (BUILTIN_COMPONENTS !! ty) as [cls |]; [| done].
    simpl. apply Forall_app. split; [done |]. apply Forall_singleton.
    unfold complete, complete_state.
    rewrite kind_of_construct, state_construct. simpl. intros s Hs.
    destruct p as [d |]; [| by apply store_defaults_all].
    case_decide; [by apply store_defaults_all |].
    by apply dict_update_keeps, store_defaults_all.
  - (* remove_component *)
    unfold remove_component. destruct (in_range e i); [| done].
    simpl. by apply Forall_delete.
  - (* set_component_enabled *)
    unfold set_component_enabled. destruct (in_range e i); [| done].
    simpl. apply Forall_alter; [done |]. intros c _ Hc.
    unfold complete, set_enabled in *.
    by rewrite kind_of_set_state, state_set_state.
  - (* update_component_params *)
    unfold update_component_params. destruct (in_range e i); [| done].
    simpl. apply Forall_alter; [done |]. intros c _ Hc.
    unfold complete, complete_state in *. intros s Hs.
    assert (Hks : kind_of (update_params c p) = kind_of c
                  /\ params (state (update_params c p))
                     = dict_update (params (state c)) p).
    { by destruct c. }
    destruct Hks as [Hk Hp]. rewrite Hk in Hs. simpl in *. rewrite Hp.
    by apply dict_update_keeps, Hc.
  - (* replace_components *)
    rewrite replace_components_omap. apply Forall_forall. intros obj Hobj.
    apply list_elem_of_omap in Hobj as (c & _ & Hc).
    by apply complete_rebuild in Hc.
  - (* generate_chunk *)
    unfold generate_chunk. destruct (Qeq_bool (fs e) 0); [done |].
    destruct (_paused e); [done |].
    pose proof (SignalEngineFacts.mix_state waveform fails
                  (inject_Z (RealtimeClock.sample_index (clock e)) / fs e)%Q
                  (Z.min (chunk_size e) MAX_CHUNK) (fs e) (components e)
                  (replicate (chunk_view_length (Z.min (chunk_size e) MAX_CHUNK)) F32.zero))
      as Hst.
    destruct (mix _ _ _ _ _ _ _) as [r comps']. simpl in Hst.
    assert (Hall' : Forall complete comps').
    { unfold complete in *.
      apply (Forall_fmap (fun c => (kind_of c, state c)) complete_state).
      change (fmap ?f ?l) with (map f l). rewrite Hst.
      by apply (Forall_fmap (fun c => (kind_of c, state c)) complete_state). }
    by destruct r.
Qed.

Lemma run_complete calls : Forall complete (components (run waveform fails calls)).
Proof.
  unfold run.
  assert (H0 : Forall complete (components (new RealtimeClock.new))) by constructor.
  revert H0. generalize (new RealtimeClock.new).
  induction calls as [| c rest IH]; intros e He; [done |].
  simpl. apply IH. by apply exec_complete.
Qed.

Lemma rebuild_entry_of c :
  complete c -> public <$> rebuild (entry_of c) = Some (public c).
Proof.
  intros Hc. unfold rebuild, entry_of. simpl. rewrite builtin_TYPE. simpl.
  unfold public. rewrite kind_of_construct, state_construct. simpl.
  by rewrite fill_missing_complete.
Qed.

Lemma roundtrip_public cs :
  Forall complete cs ->
  map public (omap rebuild (map entry_of cs)) = map public cs.
Proof.
  induction 1 as [| c cs Hc _ IH]; [done |].
  cbn [map omap list_omap]. pose proof (rebuild_entry_of c Hc) as Hr.
  destruct (rebuild (entry_of c)) as [obj |]; [| done].
  cbn [fmap option_fmap option_map] in Hr. apply (inj Some) in Hr.
  cbn [map]. rewrite Hr. f_equal. apply IH.
Qed.

(** C5. On every engine reached through the control surface, rebuilding
    from its own snapshot gives the same component kinds in the same order
    with the same enabled flags and parameter values, and changes nothing
    else of the engine. For any snapshot, [replace_components] builds one
    component per entry of a known kind, in order, and skips the others; in
    a built component a key of the entry keeps the entry's value and a
    missing key takes the default of the kind's schema. *)
Theorem snapshot_replace_roundtrip calls :
  let e := run waveform fails calls in
  let e' := replace_components e (snapshot_components e) in
  map public (components e') = map public (components e)
  /\ (clock e', fs e', chunk_size e', amplitude_clip e', _paused e')
     = (clock e, fs e, chunk_size e, amplitude_clip e, _paused e)
  /\ (forall e0 snap,
        components (replace_components e0 snap) = omap rebuild snap)
  /\ (forall c, (forall ty, s_type c = Some ty -> BUILTIN_COMPONENTS !! ty = None)
                -> rebuild c = None)
  /\ (forall c obj k,
        rebuild c = Some obj ->
        params (state obj) !! k
        = match default ∅ (s_params c) !! k with
          | Some v => Some v
          | None => schema_default (schema (kind_of obj)) k
          end).
Proof.
  intros e e'. split.
  { unfold e'. rewrite replace_components_omap, snapshot_components_map.
    apply roundtrip_public, run_complete. }
  split; [done |]. split; [apply replace_components_omap |]. split.
  - intros c Hc. unfold rebuild. destruct (s_type c) as [ty |]; [| done].
    simpl. by rewrite (Hc ty).
  - intros c obj k. unfold rebuild.
    destruct (s_type c) as [ty |]; simpl; [| done].
    destruct (BUILTIN_COMPONENTS !! ty) as [cls |]; simpl; [| done].
    intros [= <-]. rewrite kind_of_construct, state_construct. simpl.
    apply fill_missing_lookup.
Qed.
End Reachable.

End ConfigFacts.

(** ** The plugin registry: aliases and resilience *)

Module PluginManagerFacts.
Import Exn PluginManager.

Section ManagerFacts.
Context {Obj : Type}.
Implicit Types (w : World Obj) (pm : PluginManager.t Obj) (c : string * string).

(** What loading a candidate comes to: an exception before anything is
    stored; a complete load, stored under the declared id [k]; or a module
    whose declared id cannot be hashed, which is stored under the fallback
    id before the second store raises. *)
Inductive outcome :=
| Failed (e : exn)
| Loaded (m : ModuleType Obj) (obj : Obj) (d : gmap string pyval) (k : string)
| Aliased (m : ModuleType Obj) (obj : Obj) (d : gmap string pyval)
    (items : list string).

Definition classify w c : outcome :=
  match fetch w c.1 with
  | Raise e => Failed e
  | Ok m =>
      match WaveletPlugin m, PLUGIN_META m with
      | Some (Ok obj), Some (MetaDict d) =>
          match default (PyStr c.2) (d !! "id") with
          | PyStr k => Loaded m obj d k
          | PyList items => Aliased m obj d items
          end
      | Some (Ok _), Some MetaOther => Failed AttributeError
      | Some (Raise e), Some _ => Failed e
      | _, _ => Failed ValueError
      end
  end.

(** A candidate loads: no exception is raised. *)
Definition loads_ok w c : bool :=
  match classify w c with Loaded _ _ _ _ => true | _ => false end.

(** A candidate leaves an entry in the registry. *)
Definition stores w c : bool :=
  match classify w c with Failed _ => false | _ => true end.

(** The candidates [reload_all] visits, in order. *)
Definition external_mods w : list (string * string) :=
  if negb (isdir w) then []
  else map external_mod
         (filter (fun fn => negb (negb (endswith fn ".py") || startswith fn "_") = true)
                 (listdir w)).

Definition candidates w : list (string * string) :=
  builtin_mods ++ external_mods w.

Definition load_list w (cs : list (string * string)) pm : PluginManager.t Obj :=
  fold_left (fun pm c => _load_wavelet_module w pm c.1 c.2) cs pm.

(** Where the entries of the registry come from: a candidate whose module
    was fetched and whose class built the object. *)
Definition from_loaded w (cs : list (string * string)) (info : PluginInfo Obj) : Prop :=
  exists c, c ∈ cs /\ stores w c = true /\ fetch w c.1 = Ok (module info)
            /\ WaveletPlugin (module info) = Some (Ok (plugin_obj info)).

Lemma load_list_app w cs1 cs2 pm :
  load_list w (cs1 ++ cs2) pm = load_list w cs2 (load_list w cs1 pm).
Proof. unfold load_list. apply fold_left_app. Qed.

Lemma load_external_list w pm :
  _load_external_wavelets w pm = load_list w (external_mods w) pm.
Proof.
  unfold _load_external_wavelets, external_mods.
  destruct (negb (isdir w)); [done |].
  revert pm. induction (listdir w) as [| fn fns IH]; intros pm; [done |].
  cbn [fold_left]. rewrite IH, filter_cons.
  destruct (negb (endswith fn ".py") || startswith fn "_");
    case_decide; done.
Qed.

Lemma reload_all_candidates w pm :
  reload_all w pm
  = load_list w (candidates w) {| wavelet_plugins := ∅; log := log pm |}.
Proof.
  unfold reload_all, candidates. by rewrite load_list_app, load_external_list.
Qed.

(** The facts [classify] records about the module. *)
Lemma classify_loaded w c m obj d k :
  classify w c = Loaded m obj d k ->
  fetch w c.1 = Ok m /\ WaveletPlugin m = Some (Ok obj)
  /\ PLUGIN_META m = Some (MetaDict d)
  /\ default (PyStr c.2) (d !! "id") = PyStr k.
Proof.
  unfold classify. destruct (fetch w c.1) as [m' | e]; [| done].
  destruct (WaveletPlugin m') as [[obj' | e] |] eqn:Hc;
    [| by destruct (PLUGIN_META m') | done].
  destruct (PLUGIN_META m') as [[d' |] |] eqn:Hm; [| done | done].
  destruct (default _ _) as [k' | items] eqn:Hid; [| done].
  intros [= <- <- <- <-]. by rewrite Hc, Hm.
Qed.

Lemma classify_aliased w c m obj d items :
  classify w c = Aliased m obj d items ->
  fetch w c.1 = Ok m /\ WaveletPlugin m = Some (Ok obj)
  /\ PLUGIN_META m = Some (MetaDict d)
  /\ default (PyStr c.2) (d !! "id") = PyList items.
Proof.
  unfold classify. destruct (fetch w c.1) as [m' | e]; [| done].
  destruct (WaveletPlugin m') as [[obj' | e] |] eqn:Hc;
    [| by destruct (PLUGIN_META m') | done].
  destruct (PLUGIN_META m') as [[d' |] |] eqn:Hm; [| done | done].
  destruct (default _ _) as [k' | items'] eqn:Hid; [done |].
  intros [= <- <- <- <-]. by rewrite Hc, Hm.
Qed.

(** A candidate that raises before the stores is logged and leaves the
    registry as it was. *)
Lemma load_failed w pm c e :
  classify w c = Failed e ->
  _load_wavelet_module w pm c.1 c.2 = log_exception pm c.1 e.
Proof.
  unfold classify, _load_wavelet_module.
  destruct (fetch w c.1) as [m | e']; [| by intros [= <-]].
  destruct (WaveletPlugin m) as [[obj | e'] |], (PLUGIN_META m) as [[d |] |];
    try (by intros [= <-]).
  by destruct (default _ _).
Qed.

(** A candidate that loads is stored under its declared id and under the
    fallback id. *)
Lemma load_succeeded w pm c m obj d k :
  classify w c = Loaded m obj d k ->
  let info := {| id := PyStr k; meta := d; module := m; plugin_obj := obj |} in
  _load_wavelet_module w pm c.1 c.2
  = {| wavelet_plugins :=
         <[k := info]> (if decide (k <> c.2)
                        then <[c.2 := info]> (wavelet_plugins pm)
                        else wavelet_plugins pm);
       log := log pm ++ [LogInfo (d !! "name") k] |}.
Proof.
  intros Hcl. apply classify_loaded in Hcl as (Hf & Hc & Hm & Hid).
  unfold _load_wavelet_module. rewrite Hf, Hc, Hm, Hid. simpl.
  destruct (decide (k = c.2)) as [-> | Hne].
  - rewrite decide_False by (intros H; by apply H).
    by rewrite decide_False by (intros H; by apply H).
  - rewrite decide_True by congruence. by rewrite decide_True by done.
Qed.

(** A candidate whose declared id cannot be hashed is stored under the
    fallback id and logged as failed. *)
Lemma load_aliased w pm c m obj d items :
  classify w c = Aliased m obj d items ->
  let info := {| id := PyList items; meta := d; module := m; plugin_obj := obj |} in
  _load_wavelet_module w pm c.1 c.2
  = {| wavelet_plugins := <[c.2 := info]> (wavelet_plugins pm);
       log := log pm ++ [LogException c.1 TypeError] |}.
Proof.
  intros Hcl. apply classify_aliased in Hcl as (Hf & Hc & Hm & Hid).
  unfold _load_wavelet_module. by rewrite Hf, Hc, Hm, Hid.
Qed.

Lemma load_dom w pm c k :
  is_Some (wavelet_plugins pm !! k) ->
  is_Some (wavelet_plugins (_load_wavelet_module w pm c.1 c.2) !! k).
Proof.
  intros Hk. destruct (classify w c) as [e | m obj d k' | m obj d items] eqn:Hcl.
  - by rewrite (load_failed w pm c e Hcl).
  - rewrite (load_succeeded w pm c m obj d k' Hcl).
    simpl. rewrite lookup_insert. case_decide; [done |].
    case_decide; [| done]. rewrite lookup_insert. by case_decide.
  - rewrite (load_aliased w pm c m obj d items Hcl).
    simpl. rewrite lookup_insert. by case_decide.
Qed.

Lemma load_list_dom w cs pm k :
  is_Some (wavelet_plugins pm !! k) ->
  is_Some (wavelet_plugins (load_list w cs pm) !! k).
Proof.
  revert pm. induction cs as [| c cs IH]; intros pm Hk; [done |].
  simpl. by apply IH, load_dom.
Qed.

Lemma load_stores_fallback w pm c :
  stores w c = true ->
  is_Some (wavelet_plugins (_load_wavelet_module w pm c.1 c.2) !! c.2).
Proof.
  unfold stores. intros Hok.
  destruct (classify w c) as [e | m obj d k' | m obj d items] eqn:Hcl; [done | |].
  - rewrite (load_succeeded w pm c m obj d k' Hcl).
    simpl. rewrite lookup_insert. case_decide as Heq; [done |].
    rewrite decide_True by done. by rewrite lookup_insert_eq.
  - rewrite (load_aliased w pm c m obj d items Hcl).
    simpl. by rewrite lookup_insert_eq.
Qed.

(** The registry after a run only depends on the registry before it, and
    the candidates that store nothing can be left out of the run. *)
Lemma load_list_skips_failed w cs pm1 pm2 :
  wavelet_plugins pm1 = wavelet_plugins pm2 ->
  wavelet_plugins (load_list w cs pm1)
  = wavelet_plugins (load_list w (filter (fun c => stores w c = true) cs) pm2).
Proof.
  revert pm1 pm2. induction cs as [| c cs IH]; intros pm1 pm2 Heq; [done |].
  rewrite filter_cons. simpl. destruct (stores w c) eqn:Hst.
  - rewrite decide_True by done. simpl. apply IH. unfold stores in Hst.
    destruct (classify w c) as [e | m obj d k' | m obj d items] eqn:Hcl; [done | |].
    + rewrite (load_succeeded w pm1 c m obj d k' Hcl).
      rewrite (load_succeeded w pm2 c m obj d k' Hcl). simpl. by rewrite Heq.
    + rewrite (load_aliased w pm1 c m obj d items Hcl).
      rewrite (load_aliased w pm2 c m obj d items Hcl). simpl. by rewrite Heq.
  - rewrite decide_False by congruence. apply IH. unfold stores in Hst.
    destruct (classify w c) as [e | m obj d k' | m obj d items] eqn:Hcl;
      [| done | done].
    by rewrite (load_failed w pm1 c e Hcl).
Qed.

(** Every load appends exactly one record to the log. *)
Lemma load_log_step w pm c :
  exists r, log (_load_wavelet_module w pm c.1 c.2) = log pm ++ [r]
            /\ match classify w c with
               | Failed e => r = LogException c.1 e
               | Loaded _ _ d k => r = LogInfo (d !! "name") k
               | Aliased _ _ _ _ => r = LogException c.1 TypeError
               end.
Proof.
  destruct (classify w c) as [e | m obj d k' | m obj d items] eqn:Hcl.
  - rewrite (load_failed w pm c e Hcl). simpl. eauto.
  - rewrite (load_succeeded w pm c m obj d k' Hcl). simpl. eauto.
  - rewrite (load_aliased w pm c m obj d items Hcl). simpl. eauto.
Qed.

Lemma load_log_grows w pm c r :
  r ∈ log pm -> r ∈ log (_load_wavelet_module w pm c.1 c.2).
Proof.
  intros Hr. destruct (load_log_step w pm c) as (r' & -> & _).
  apply elem_of_app. by left.
Qed.

Lemma load_list_log_grows w cs pm r :
  r ∈ log pm -> r ∈ log (load_list w cs pm).
Proof.
  revert pm. induction cs as [| c cs IH]; intros pm Hr; [done |].
  simpl. by apply IH, load_log_grows.
Qed.

Lemma load_list_logs w cs pm c r :
  c ∈ cs ->
  (forall pm0, r ∈ log (_load_wavelet_module w pm0 c.1 c.2)) ->
  r ∈ log (load_list w cs pm).
Proof.
  revert pm. induction cs as [| c' cs IH]; intros pm Hc Hr.
  { by apply elem_of_nil in Hc. }
  apply elem_of_cons in Hc as [<- | Hc]; [| by apply IH].
  simpl. by apply load_list_log_grows.
Qed.

Lemma load_list_logs_failed w cs pm c e :
  c ∈ cs -> classify w c = Failed e ->
  LogException c.1 e ∈ log (load_list w cs pm).
Proof.
  intros Hc Hcl. apply load_list_logs with c; [done |]. intros pm0.
  rewrite (load_failed w pm0 c e Hcl). simpl.
  apply elem_of_app. right. by apply list_elem_of_singleton.
Qed.

Lemma load_list_logs_aliased w cs pm c m obj d items :
  c ∈ cs -> classify w c = Aliased m obj d items ->
  LogException c.1 TypeError ∈ log (load_list w cs pm).
Proof.
  intros Hc Hcl. apply load_list_logs with c; [done |]. intros pm0.
  rewrite (load_aliased w pm0 c m obj d items Hcl). simpl.
  apply elem_of_app. right. by apply list_elem_of_singleton.
Qed.

Lemma load_list_stores_ok w cs pm c :
  c ∈ cs -> stores w c = true ->
  is_Some (wavelet_plugins (load_list w cs pm) !! c.2).
Proof.
  revert pm. induction cs as [| c' cs IH]; intros pm Hc Hok.
  { by apply elem_of_nil in Hc. }
  apply elem_of_cons in Hc as [<- | Hc]; [| by apply IH].
  simpl. by apply load_list_dom, load_stores_fallback.
Qed.

Lemma load_list_provenance w cs0 cs pm :
  (forall c, c ∈ cs -> c ∈ cs0) ->
  (forall k info, wavelet_plugins pm !! k = Some info -> from_loaded w cs0 info) ->
  forall k info, wavelet_plugins (load_list w cs pm) !! k = Some info ->
                 from_loaded w cs0 info.
Proof.
  revert pm. induction cs as [| c cs IH]; intros pm Hsub Hpm; [done |].
  simpl. apply IH; [intros c' Hc'; apply Hsub; by right |].
  intros k info.
  destruct (classify w c) as [e | m obj d k' | m obj d items] eqn:Hcl.
  - rewrite (load_failed w pm c e Hcl). apply Hpm.
  - rewrite (load_succeeded w pm c m obj d k' Hcl). simpl.
    assert (Hnew : from_loaded w cs0
              {| id := PyStr k'; meta := d; module := m; plugin_obj := obj |}).
    { exists c. split; [apply Hsub; by left |].
      split; [unfold stores; by rewrite Hcl |].
      by apply classify_loaded in Hcl as (? & ? & _). }
    rewrite lookup_insert. case_decide; [by intros [= <-] |].
    case_decide; [| apply Hpm].
    rewrite lookup_insert. case_decide; [by intros [= <-] | apply Hpm].
  - rewrite (load_aliased w pm c m obj d items Hcl). simpl.
    rewrite lookup_insert. case_decide; [| apply Hpm].
    intros [= <-]. exists c. split; [apply Hsub; by left |].
    split; [unfold stores; by rewrite Hcl |].
    by apply classify_aliased in Hcl as (? & ? & _).
Qed.

(** C6. [reload_all] visits every candidate whatever the earlier ones did,
    and a candidate whose import, attribute check, instantiation or
    metadata read raises is logged and adds nothing; every candidate that
    loads is reachable under its fallback id, and every stored entry wraps a
    module whose class built its object. But a logged failure does not
    mean an omitted candidate: a module whose declared id cannot be hashed
    is stored under the fallback id before the store under the declared id
    raises, so it is logged as failed and stays registered. *)
Theorem reload_all_resilient w pm :
  let pm' := reload_all w pm in
  wavelet_plugins pm'
  = wavelet_plugins
      (load_list w (filter (fun c => stores w c = true) (candidates w)) new)
  /\ (forall c e, c ∈ candidates w -> classify w c = Failed e ->
        (forall pm0, wavelet_plugins (_load_wavelet_module w pm0 c.1 c.2)
                     = wavelet_plugins pm0)
        /\ LogException c.1 e ∈ log pm')
  /\ (forall c, c ∈ candidates w -> loads_ok w c = true ->
        is_Some (get_wavelet pm' c.2))
  /\ (forall c m obj d items,
        c ∈ candidates w -> classify w c = Aliased m obj d items ->
        LogException c.1 TypeError ∈ log pm'
        /\ is_Some (get_wavelet pm' c.2)
        /\ forall pm0,
             get_wavelet (_load_wavelet_module w pm0 c.1 c.2) c.2
             = Some {| id := PyList items; meta := d; module := m;
                       plugin_obj := obj |})
  /\ (forall k info, get_wavelet pm' k = Some info ->
        from_loaded w (candidates w) info).
Proof.
  intros pm'. unfold pm'. rewrite reload_all_candidates.
  split; [by apply load_list_skips_failed |]. split; [| split; [| split]].
  - intros c e Hc Hcl. split.
    + intros pm0. by rewrite (load_failed w pm0 c e Hcl).
    + by apply load_list_logs_failed.
  - intros c Hc Hok. apply load_list_stores_ok; [done |].
    unfold loads_ok in Hok. unfold stores. by destruct (classify w c).
  - intros c m obj d items Hc Hcl. split; [| split].
    + by eapply load_list_logs_aliased.
    + apply load_list_stores_ok; [done |]. unfold stores. by rewrite Hcl.
    + intros pm0. unfold get_wavelet.
      rewrite (load_aliased w pm0 c m obj d items Hcl). simpl.
      by rewrite lookup_insert_eq.
  - unfold get_wavelet. apply load_list_provenance; [done |].
    intros k info. simpl. by rewrite lookup_empty.
Qed.

(** C7. A module that loads is stored under its declared id and under the
    fallback id used to locate it: [get_wavelet] returns a [PluginInfo]
    wrapping the one plugin object under either key, and no other key
    changes; on an empty registry this makes two entries when the ids
    differ and exactly one when they coincide. *)
Theorem load_stores_both_keys w pm modname plugin_id m obj mt pid :
  fetch w modname = Ok m ->
  WaveletPlugin m = Some (Ok obj) ->
  PLUGIN_META m = Some (MetaDict mt) ->
  default (PyStr plugin_id) (mt !! "id") = PyStr pid ->
  let info := {| id := PyStr pid; meta := mt; module := m; plugin_obj := obj |} in
  let pm' := _load_wavelet_module w pm modname plugin_id in
  get_wavelet pm' pid = Some info
  /\ get_wavelet pm' plugin_id = Some info
  /\ (forall k, k <> pid -> k <> plugin_id -> get_wavelet pm' k = get_wavelet pm k)
  /\ (wavelet_plugins pm = ∅ ->
      size (wavelet_plugins pm') = if decide (pid = plugin_id) then 1%nat else 2%nat).
Proof.
  intros Hf Hc Hm Hid info pm'.
  assert (Hpm' : wavelet_plugins pm'
                 = <[pid := info]> (if decide (pid <> plugin_id)
                                    then <[plugin_id := info]> (wavelet_plugins pm)
                                    else wavelet_plugins pm)).
  { unfold pm', _load_wavelet_module. rewrite Hf, Hc, Hm, Hid. simpl.
    destruct (decide (pid = plugin_id)) as [-> | Hne].
    - rewrite decide_False by (intros H; by apply H).
      by rewrite decide_False by (intros H; by apply H).
    - rewrite decide_True by congruence. by rewrite decide_True by done. }
  unfold get_wavelet. rewrite Hpm'. clear Hpm'.
  destruct (decide (pid = plugin_id)) as [Heq | Hne].
  - rewrite decide_False by (intros Hne; by apply Hne). rewrite <- Heq.
    split; [by rewrite lookup_insert_eq |].
    split; [by rewrite lookup_insert_eq |].
    split; [intros k Hk _; by rewrite lookup_insert_ne |].
    intros ->. by rewrite map_size_insert_None, map_size_empty by apply lookup_empty.
  - rewrite decide_True by done.
    split; [by rewrite lookup_insert_eq |].
    split; [by rewrite lookup_insert_ne, lookup_insert_eq |].
    split; [intros k Hk1 Hk2; by rewrite !lookup_insert_ne |].
    intros ->.
    rewrite map_size_insert_None
      by (rewrite lookup_insert_ne by done; apply lookup_empty).
    by rewrite map_size_insert_None, map_size_empty by apply lookup_empty.
Qed.
End ManagerFacts.

End PluginManagerFacts.

(** ** The tone component: parameter smoothing *)

Module SineFacts.
Import Exn Components.





(** The factor of one chunk as the interpreter computes it. *)
Definition alpha_of (ms n : Z) (fs : Q) : Q :=
  Qmin1 1.0 (F64.div (F64.div (F64.of_int n) fs) (F64.div (F64.of_int ms) 1000.0)).












Section Smoothing.
Variable waveform : kind -> dict -> Q -> Z -> Q -> list F32.t.
Variable fails : kind -> dict -> Q -> Z -> Q -> option exn.


(** A disabled tone returns zeros and keeps its smoothing state. *)
Lemma sine_disabled_frozen s (cur tgt : dict) t0 n fs :
  enabled s = false ->
  generate waveform fails (SineComponent s cur tgt) t0 n fs
  = (np_zeros n, SineComponent s cur tgt).
Proof. intros Hen. unfold generate. cbn [state]. by rewrite Hen. Qed.
End Smoothing.

End SineFacts.

(** ** The built-in transforms on short windows *)

Module TransformFacts.
Import Exn Transforms.

Section ShortWindows.
Variable nm : Numerics.

Lemma length_np_linspace a b n : length (np_linspace a b n) = n.
Proof. unfold np_linspace. by rewrite length_map, length_seq. Qed.

Lemma length_np_geomspace a b n : length (np_geomspace nm a b n) = n.
Proof. unfold np_geomspace. by rewrite length_map, length_seq. Qed.

(** The frequency grid has at least two rows. *)
Lemma length_freq_grid f_min f_max n spacing :
  length (CWT._freq_grid nm f_min f_max n spacing) = Z.to_nat (Z.max 2 n).
Proof.
  unfold CWT._freq_grid, CWT.astype_float32.
  destruct (String.eqb _ "log"); rewrite length_map;
    [apply length_np_geomspace | apply length_np_linspace].
Qed.

(** The continuous transform has no length guard: whenever it returns, the
    frequency axis of the result is the whole grid, two rows or more. *)
Lemma cwt_result_rows x fs params :
  match CWT.transform nm x fs params with
  | Ok r => (2 <= length (y_axis r))%nat /\ ~ one_row_zero r
  | Raise _ => True
  end.
Proof.
  unfold CWT.transform.
  destruct (py_float nm (pget params "f_min" _)) as [f_min | e]; [| done].
  destruct (py_float nm (pget params "f_max" _)) as [f_max | e]; [| done].
  destruct (py_int nm (pget params "n_freqs" _)) as [n_freqs | e]; [| done].
  destruct (CWT._scales_from_freqs _ _ _ _) as [scales | e]; [| done].
  destruct (Qeq_bool fs 0); [done |].
  destruct (pywt_cwt nm x _ _ _) as [coefs | e]; [| done].
  assert (Hrows : (2 <= length (CWT._freq_grid nm f_min
                     (Qmin2 f_max (fs / 2.0 - 0.000001)) n_freqs
                     (py_str nm (pget params "freq_spacing" (PStr "linear")))))%nat).
  { rewrite length_freq_grid. lia. }
  split; [done |]. intros (cols & _ & Hone). simpl in Hone. lia.
Qed.

(** C8 where the code departs from it: on the empty window and the default
    parameters at 2000 Hz the continuous transform either propagates the
    exception of [pywt.cwt] or returns a result over the full grid of 128
    frequencies, never the one-row zero result. *)
Theorem cwt_short_window_not_clamped :
  match CWT.transform nm [] 2000.0 ∅ with
  | Ok r => length (y_axis r) = 128%nat /\ ~ one_row_zero r
  | Raise _ => True
  end.
Proof.
  pose proof (cwt_result_rows [] 2000.0 ∅) as Hrows.
  unfold CWT.transform in *. unfold pget in *. rewrite !lookup_empty in *.
  cbn [default py_float py_int py_str] in *.
  destruct (CWT._scales_from_freqs _ _ _ _) as [scales | e]; [| done].
  destruct (Qeq_bool 2000.0 0); [done |].
  destruct (pywt_cwt nm [] _ _ _) as [coefs | e]; [| done].
  destruct Hrows as [_ Hnot]. split; [| done].
  cbn [y_axis]. by rewrite length_freq_grid.
Qed.

(** The discrete transform does clamp: a window shorter than 16 samples
    gives one row of zeros, at any nonzero sample rate. *)
Lemma dwt_short_window_trivial x fs params :
  (length x < 16)%nat -> Qeq_bool fs 0 = false ->
  exists r, DWT.transform nm x fs params = Ok r
            /\ image r = [replicate (Nat.max (length x) 1) 0%Q]
            /\ y_axis r = [0%Q]
            /\ one_row_zero r.
Proof.
  intros Hshort Hfs. unfold DWT.transform.
  destruct (Nat.ltb_spec (length x) 16) as [_ | Hge]; [| lia].
  rewrite Hfs. eexists; split; [done |]. split; [done |]. split; [done |].
  by exists (Nat.max (length x) 1).
Qed.
End ShortWindows.

End TransformFacts.

(** * Worked instances *)

Module Instances.
Import Exn.

(** ** The inputs *)

Definition demo_ring : RingBuffer.t Z :=
  RingBuffer.mk 4 [0; 0; 0; 0] 0 0.

Definition demo_batches : list (list Z) := [[1; 2; 3]; [4; 5]].

(** Components whose samples all have the value 2, and numerics that
    never raise. *)
Definition loud (k : Components.kind) (p : Components.dict) (t0 : Q) (n : Z) (fs : Q)
    : list F32.t :=
  replicate (Z.to_nat n) (F32.Fin 2.0).

Definition no_failure (k : Components.kind) (p : Components.dict) (t0 : Q) (n : Z)
    (fs : Q) : option exn :=
  None.


Definition demo_engine : SignalEngine.t :=
  SignalEngine.run loud no_failure
    [ SignalEngine.AddComponent "sine" None true;
      SignalEngine.SetGlobal None (Some 4) (Some 0.5%Q) ].

Definition demo_playing : SignalEngine.t := SignalEngine.play demo_engine.

(** A fresh engine, paused as it is built, whose sample rate was set to
    zero. *)
Definition demo_zero_rate : SignalEngine.t :=
  SignalEngine.run loud no_failure [ SignalEngine.SetGlobal (Some 0%Q) None None ].

(** The float 0.1. *)
Definition tenth : Q := F64.round 0.1.

(** A playing engine with one tone and the clip threshold 0.1, which is
    not a [float32] value. *)
Definition demo_tenth : SignalEngine.t :=
  SignalEngine.run loud no_failure
    [ SignalEngine.AddComponent "sine" None true;
      SignalEngine.SetGlobal None (Some 4) (Some tenth);
      SignalEngine.Play ].






(** A tone whose amplitude target was moved from 5.0 to the float 0.1. *)
Definition demo_step : Components.t :=
  Components.update_params
    (Components.construct Components.Sine
       {| Components.enabled := true;
          Components.params :=
            <["amplitude" := Value.VFloat 5.0]> (Components.default_params Components.Sine) |})
    {["amplitude" := Value.VFloat tenth]}.

Definition good_meta : gmap string PluginManager.pyval :=
  <["id" := PluginManager.PyStr "my:haar"]>
    (<["name" := PluginManager.PyStr "Haar"]> ∅).

Definition good_module : PluginManager.ModuleType nat :=
  {| PluginManager.__name__ := "plugins.wavelets.mine";
     PluginManager.WaveletPlugin := Some (Ok 7%nat);
     PluginManager.PLUGIN_META := Some (PluginManager.MetaDict good_meta) |}.

(** A plugin folder with one well-formed and one malformed module, and
    built-ins that cannot be imported. *)
Definition demo_world : PluginManager.World nat :=
  {| PluginManager.in_sys_modules := fun _ => false;
     PluginManager.import_module :=
       fun modname =>
         if String.eqb modname "plugins.wavelets.mine" then Ok good_module
         else if String.eqb modname "plugins.wavelets.broken"
         then Ok {| PluginManager.__name__ := "plugins.wavelets.broken";
                    PluginManager.WaveletPlugin := Some (Raise (Exception "boom"));
                    PluginManager.PLUGIN_META := Some (PluginManager.MetaDict ∅) |}
         else Raise ImportError;
     PluginManager.reload := fun _ => Raise ImportError;
     PluginManager.isdir := true;
     PluginManager.listdir := ["broken.py"; "_private.py"; "notes.txt"; "mine.py"] |}.

Definition good_info : PluginManager.PluginInfo nat :=
  {| PluginManager.id := PluginManager.PyStr "my:haar";
     PluginManager.meta := good_meta;
     PluginManager.module := good_module;
     PluginManager.plugin_obj := 7%nat |}.

(** A module that is malformed in its metadata only: its class builds an
    object, and [PLUGIN_META = {"id": ["a"]}] declares a list as its id. *)
Definition listed_meta : gmap string PluginManager.pyval :=
  {["id" := PluginManager.PyList ["a"]]}.

Definition listed_module : PluginManager.ModuleType nat :=
  {| PluginManager.__name__ := "plugins.wavelets.listed";
     PluginManager.WaveletPlugin := Some (Ok 8%nat);
     PluginManager.PLUGIN_META := Some (PluginManager.MetaDict listed_meta) |}.

Definition listed_info : PluginManager.PluginInfo nat :=
  {| PluginManager.id := PluginManager.PyList ["a"];
     PluginManager.meta := listed_meta;
     PluginManager.module := listed_module;
     PluginManager.plugin_obj := 8%nat |}.

(** A plugin folder with the well-formed module and that malformed one. *)
Definition listed_world : PluginManager.World nat :=
  {| PluginManager.in_sys_modules := fun _ => false;
     PluginManager.import_module :=
       fun modname =>
         if String.eqb modname "plugins.wavelets.mine" then Ok good_module
         else if String.eqb modname "plugins.wavelets.listed" then Ok listed_module
         else Raise ImportError;
     PluginManager.reload := fun _ => Raise ImportError;
     PluginManager.isdir := true;
     PluginManager.listdir := ["listed.py"; "mine.py"] |}.

(** Numerics whose [pywt.cwt] returns one row of zeros per scale. *)
Definition flat_numerics : Transforms.Numerics :=
  {| Transforms.str_of_float := fun _ => "";
     Transforms.str_of_int := fun _ => "";
     Transforms.float_of_str := fun _ => Raise ValueError;
     Transforms.int_of_str := fun _ => Raise ValueError;
     Transforms.str_lower := fun s => s;
     Transforms.rpow := fun _ _ => 1%Q;
     Transforms.np_sqrt := fun q => q;
     Transforms.central_frequency := fun _ => Ok 0.8125%Q;
     Transforms.pywt_cwt :=
       fun x scales _ _ => Ok (map (fun _ => map (fun _ => 0%Q) x) scales);
     Transforms.dwt_wpt_decompose := fun _ _ _ => Raise ValueError |}.

(** ** Floats *)

(** The rounding on a few values whose floats are known: 0.1 and 1e-6 in
    single precision, 0.1 in double precision, two ties (to the even
    neighbour), and a value below the least subnormal. *)
Example rounding_values :
  (F32.round 0.1 == 13421773 # 134217728)%Q
  /\ (F32.round 0.000001 == 8796093 # 8796093022208)%Q
  /\ (F64.round 0.1 == 3602879701896397 # 36028797018963968)%Q
  /\ (F32.round 16777217 == 16777216)%Q
  /\ (F32.round 16777219 == 16777220)%Q
  /\ (F32.round (Binary.pow2 (-150)) == 0)%Q
  /\ (F32.round (3 * Binary.pow2 (-150)) == Binary.pow2 (-148))%Q
  /\ F32.of_Q (Binary.pow2 128) = F32.PInf
  /\ (F64.sub (F64.round 0.1) 5.0 == - (2758454771764429 # 562949953421312))%Q.
Proof. repeat split; vm_compute; reflexivity. Qed.

(** ** Ring buffer *)

Lemma demo_ring_wf : RingBuffer.wf demo_ring.
Proof. constructor; simpl; lia. Qed.

(** The wrap-around test of the specification, by direct evaluation:
    batches of sizes [capacity - 2], [3] and [capacity - 1]. *)
Example ring_wraparound :
  (rb ← RingBuffer.appends (RingBuffer.clear 0 (RingBuffer.mk 5 [9; 9; 9; 9; 9] 3 2))
         [[1; 2; 3]; [4; 5; 6]; [7; 8; 9; 10]];
   Some (RingBuffer.get_last rb 5, RingBuffer.write rb, RingBuffer.filled rb))
  = Some ([6; 7; 8; 9; 10], 0, 5).
Proof. reflexivity. Qed.

Lemma get_last_recent_witness :
  RingBuffer.wf demo_ring
  /\ exists rb,
       RingBuffer.appends (RingBuffer.clear 0 demo_ring) demo_batches = Some rb
       /\ RingBuffer.filled rb = 4
       /\ RingBuffer.get_last rb 3 = [3; 4; 5]
       /\ RingBuffer.get_last rb 9 = [2; 3; 4; 5].
Proof.
  split; [exact demo_ring_wf |].
  destruct (RingBufferFacts.get_last_recent 0 demo_ring demo_batches demo_ring_wf)
    as (rb & Hrun & Hfilled & Hget & _).
  exists rb. split; [exact Hrun |]. split; [exact Hfilled |].
  rewrite !Hget, Hfilled. split; reflexivity.
Defined.

Lemma append_overflow_witness :
  RingBuffer.wf demo_ring
  /\ RingBuffer.capacity demo_ring <= Z.of_nat (length [1; 2; 3; 4; 5; 6])
  /\ RingBuffer.append demo_ring [1; 2; 3; 4; 5; 6]
     = Some (RingBuffer.mk 4 [3; 4; 5; 6] 0 4)
  /\ RingBuffer.get_last (RingBuffer.mk 4 [3; 4; 5; 6] 0 4) 4 = [3; 4; 5; 6].
Proof.
  split; [exact demo_ring_wf |]. split; [simpl; lia |].
  apply (RingBufferFacts.append_overflow demo_ring [1; 2; 3; 4; 5; 6] demo_ring_wf).
  simpl; lia.
Defined.

(** ** Signal engine *)




Example paused_zero_rate :
  SignalEngine.is_paused demo_zero_rate = true
  /\ SignalEngine.generate_chunk loud no_failure demo_zero_rate
     = (Raise ZeroDivisionError, demo_zero_rate).
Proof. split; reflexivity. Qed.


(** The clipping test of the specification, by direct evaluation: 0.5 is a
    [float32] value, and every sample is that value. *)
Example clip_half :
  fst (SignalEngine.generate_chunk loud no_failure demo_playing)
  = Ok (replicate 4 (F32.of_Q 0.5), (inject_Z 0 / 2000.0)%Q)
  /\ (F32.round 0.5 == 0.5)%Q.
Proof. split; vm_compute; reflexivity. Qed.


Example clip_tenth :
  fst (SignalEngine.generate_chunk loud no_failure demo_tenth)
  = Ok (replicate 4 (F32.of_Q tenth), (inject_Z 0 / 2000.0)%Q)
  /\ F32.of_Q tenth = F32.Fin (F32.round tenth)
  /\ (F32.round tenth == 13421773 # 134217728)%Q
  /\ (tenth < F32.round tenth)%Q.
Proof. repeat split; vm_compute; reflexivity. Qed.

Lemma index_out_of_range_noop_witness :
  (5 < 0 \/ Z.of_nat (length (SignalEngine.components demo_engine)) <= 5)
  /\ SignalEngine.remove_component demo_engine 5 = demo_engine
  /\ SignalEngine.set_component_enabled demo_engine 5 false = demo_engine
  /\ SignalEngine.update_component_params demo_engine 5 ∅ = demo_engine.
Proof.
  assert (H : 5 < 0 \/ Z.of_nat (length (SignalEngine.components demo_engine)) <= 5).
  { right. vm_compute. discriminate. }
  split; [exact H |].
  exact (SignalEngineFacts.index_out_of_range_noop demo_engine 5 false ∅ H).
Defined.

(** A saved configuration with an unknown kind and a missing key: the
    unknown entry is dropped and [smooth_ms] takes its schema default. *)
Example replace_skips_and_fills :
  map ConfigFacts.public
    (SignalEngine.components
       (SignalEngine.replace_components demo_engine
          [ {| SignalEngine.s_type := Some "square"; SignalEngine.s_name := None;
               SignalEngine.s_enabled := None; SignalEngine.s_params := None |};
            {| SignalEngine.s_type := Some "sine"; SignalEngine.s_name := None;
               SignalEngine.s_enabled := Some (Value.VBool false);
               SignalEngine.s_params :=
                 Some (<["amplitude" := Value.VFloat 2.0]>
                         (<["frequency" := Value.VFloat 6.0]>
                            (<["phase" := Value.VFloat 0.0]>
                               (<["dc" := Value.VFloat 0.0]> ∅)))) |} ]))
  = [ (Components.Sine, false,
       <["smooth_ms" := Value.VInt 150]>
         (<["amplitude" := Value.VFloat 2.0]>
            (<["frequency" := Value.VFloat 6.0]>
               (<["phase" := Value.VFloat 0.0]>
                  (<["dc" := Value.VFloat 0.0]> ∅))))) ].
Proof. vm_compute. reflexivity. Qed.

(** ** Tone smoothing *)




(** The last case, by direct evaluation. *)
Example step_misses_target :
  match snd (Components.generate loud no_failure demo_step 0 4096 2000.0) with
  | Components.SineComponent _ cur' tgt =>
      SineFacts.alpha_of 150 4096 2000.0 = 1.0%Q
      /\ (Value.py_float (Components.get tgt "amplitude" (Value.VFloat 0))
          == 3602879701896397 # 36028797018963968)%Q
      /\ (Value.py_float (Components.get cur' "amplitude" (Value.VFloat 0))
          == 56294995342131 # 562949953421312)%Q
  | _ => False
  end.
Proof. vm_compute. repeat split; reflexivity. Qed.

(** ** Plugin registry *)

(** The resilience test of the specification, by direct evaluation: the
    well-formed module is the only one registered (under both of its ids)
    and each failure is logged. *)
Example reload_all_one_good_one_bad :
  let pm := PluginManager.reload_all demo_world PluginManager.new in
  PluginManager.wavelet_plugins pm
  = <["my:haar" := good_info]> (<["plugin:plugins.wavelets.mine" := good_info]> ∅)
  /\ PluginManager.log pm
     = [ PluginManager.LogException "wavelets.builtins.cwt_morlet" ImportError;
         PluginManager.LogException "wavelets.builtins.dwt_wpt" ImportError;
         PluginManager.LogException "plugins.wavelets.broken" (Exception "boom");
         PluginManager.LogInfo (Some (PluginManager.PyStr "Haar")) "my:haar" ].
Proof. split; vm_compute; reflexivity. Qed.

(** The same test with a module malformed in its declared id: its load is
    logged as a failure, and it is registered all the same, under its
    fallback id. *)
Example reload_all_keeps_failed_plugin :
  let pm := PluginManager.reload_all listed_world PluginManager.new in
  PluginManager.wavelet_plugins pm
  = <["my:haar" := good_info]>
      (<["plugin:plugins.wavelets.mine" := good_info]>
         (<["plugin:plugins.wavelets.listed" := listed_info]> ∅))
  /\ PluginManager.log pm
     = [ PluginManager.LogException "wavelets.builtins.cwt_morlet" ImportError;
         PluginManager.LogException "wavelets.builtins.dwt_wpt" ImportError;
         PluginManager.LogException "plugins.wavelets.listed" TypeError;
         PluginManager.LogInfo (Some (PluginManager.PyStr "Haar")) "my:haar" ]
  /\ PluginManager.get_wavelet pm "plugin:plugins.wavelets.listed" = Some listed_info.
Proof. repeat split; vm_compute; reflexivity. Qed.

Lemma load_stores_both_keys_witness :
  PluginManager.fetch demo_world "plugins.wavelets.mine" = Ok good_module
  /\ PluginManager.WaveletPlugin good_module = Some (Ok 7%nat)
  /\ (let pm' := PluginManager._load_wavelet_module demo_world PluginManager.new
                   "plugins.wavelets.mine" "plugin:plugins.wavelets.mine" in
      PluginManager.get_wavelet pm' "my:haar" = Some good_info
      /\ PluginManager.get_wavelet pm' "plugin:plugins.wavelets.mine" = Some good_info
      /\ size (PluginManager.wavelet_plugins pm') = 2%nat).
Proof.
  split; [reflexivity |]. split; [reflexivity |].
  destruct (PluginManagerFacts.load_stores_both_keys demo_world PluginManager.new
              "plugins.wavelets.mine" "plugin:plugins.wavelets.mine"
              good_module 7%nat good_meta "my:haar"
              eq_refl eq_refl eq_refl eq_refl)
    as (Hpid & Hfallback & _ & Hsize).
  split; [exact Hpid |]. split; [exact Hfallback |]. exact (Hsize eq_refl).
Defined.

(** ** Transforms *)

(** A window of three samples: the discrete transform returns the one-row
    zero result, the continuous one a result of 128 rows. *)
Example short_window_both_variants :
  match Transforms.DWT.transform flat_numerics [1; 2; 3]%Q 2000.0 ∅ with
  | Ok r => Transforms.image r = [[0; 0; 0]%Q] /\ Transforms.y_axis r = [0%Q]
  | Raise _ => False
  end
  /\ match Transforms.CWT.transform flat_numerics [1; 2; 3]%Q 2000.0 ∅ with
     | Ok r => length (Transforms.image r) = 128%nat
               /\ length (Transforms.y_axis r) = 128%nat
     | Raise _ => False
     end.
Proof. split; vm_compute; split; reflexivity. Qed.

End Instances.

(** * Further properties *)

(** ** Ring buffer: invariant, read-back, bounds, degenerate capacities *)

Module RingBufferExtra.
Import Py PyFacts RingBuffer RingBufferFacts.

Section RingExtra.
Context {A : Type} (zero : A).
Implicit Types (rb : RingBuffer.t A) (x : list A).

(** X1. [append] never raises on a well-formed buffer and keeps it well
    formed: same capacity, storage of that size, cursor inside it, and a
    filled count that never decreases and is capped at the capacity. *)
Theorem append_keeps_wf rb x :
  wf rb ->
  exists rb', append rb x = Some rb' /\ wf rb'
    /\ capacity rb' = capacity rb
    /\ filled rb <= filled rb'
    /\ filled rb' = Z.min (capacity rb) (filled rb + Z.of_nat (length x)).
Proof.
  intros Hwf. destruct (append_view rb x Hwf) as (rb' & Happ & Hwf' & Hc & Hf & _).
  exists rb'. destruct Hwf.
  split; [done |]. split; [done |]. split; [done |]. split; [lia | done].
Qed.

(** X2. Whatever a well-formed buffer held, right after [append x] the call
    [get_last (len x)] reads back the batch itself, or its last [capacity]
    samples when the batch is longer than the buffer. *)
Theorem append_then_get_last rb x :
  wf rb ->
  exists rb', append rb x = Some rb'
    /\ get_last rb' (Z.of_nat (length x)) = lastn (Z.to_nat (capacity rb)) x
    /\ (Z.of_nat (length x) <= capacity rb ->
        get_last rb' (Z.of_nat (length x)) = x).
Proof.
  intros Hwf. destruct (append_view rb x Hwf) as (rb' & Happ & Hwf' & Hc & Hf & Hv).
  pose proof (length_view rb) as Hlv. destruct Hwf as [Hcap Hbuf Hw Hfill].
  assert (Hget : get_last rb' (Z.of_nat (length x))
                 = lastn (Z.to_nat (capacity rb)) x).
  { rewrite get_last_view by done. rewrite Hv, Hf.
    destruct (decide (Z.of_nat (length x) <= capacity rb)) as [Hle | Hgt].
    - replace (Z.to_nat (Z.min (Z.of_nat (length x))
                 (Z.min (capacity rb) (filled rb + Z.of_nat (length x)))))
        with (length x) by lia.
      rewrite lastn_lastn by lia. rewrite lastn_app by lia.
      rewrite !lastn_all by lia. done.
    - replace (Z.to_nat (Z.min (Z.of_nat (length x))
                 (Z.min (capacity rb) (filled rb + Z.of_nat (length x)))))
        with (Z.to_nat (capacity rb)) by lia.
      rewrite lastn_lastn by lia. apply lastn_app. lia. }
  exists rb'. split; [done |]. split; [done |].
  intros Hle. rewrite Hget. apply lastn_all. lia.
Qed.

(** X3. [get_last n] returns exactly [min(n, filled)] samples (none for
    [n <= 0]), never more than were stored, and a shorter request reads a
    suffix of a longer one. *)
Theorem get_last_length rb n :
  wf rb ->
  length (get_last rb n) = Z.to_nat (Z.min n (filled rb))
  /\ forall m, n <= m ->
       get_last rb n = lastn (Z.to_nat (Z.min n (filled rb))) (get_last rb m).
Proof.
  intros Hwf. pose proof (length_view rb) as Hlv.
  pose proof Hwf as [Hcap Hbuf Hw Hfill]. split.
  - rewrite get_last_view by done. rewrite length_lastn. lia.
  - intros m Hm. rewrite !get_last_view by done.
    rewrite lastn_lastn by lia. done.
Qed.
End RingExtra.

(** X4. A buffer of capacity zero stores nothing: [get_last] is always
    empty, an empty or one-sample batch is accepted and dropped, and a
    longer batch makes the storage assignment raise; a negative capacity
    is refused by the constructor. *)
Theorem zero_capacity_edge {A : Type} (zero : A) :
  let rb0 := RingBuffer.mk 0 (@nil A) 0 0 in
  new zero 0 = Some rb0
  /\ (forall n, get_last rb0 n = [])
  /\ (forall x, append rb0 x
                = match x with
                  | [] | [_] => Some rb0
                  | _ => None
                  end)
  /\ (forall cap, cap < 0 -> new zero cap = None).
Proof.
  intros rb0. split; [done |]. split; [| split].
  - intros n. unfold get_last. simpl.
    destruct (Z.leb_spec (Z.min n 0) 0); [done | lia].
  - intros [| a [| b x]]; [done | done |].
    unfold append. cbn [length capacity rb0].
    destruct (Z.eqb_spec (Z.of_nat (S (S (length x)))) 0); [lia |].
    destruct (Z.leb_spec 0 (Z.of_nat (S (S (length x))))); [| lia].
    unfold slice, assign_slice, slice_start, slice_stop, clamp_index. simpl.
    rewrite take_ge by (simpl; lia).
    by rewrite decide_False by (simpl; lia).
  - intros cap Hneg. unfold new. by destruct (Z.ltb_spec cap 0); [| lia].
Qed.

End RingBufferExtra.

(** ** Signal engine: logical time, frame, additivity, indexed calls *)

Module SignalEngineExtra.
Import Exn Components SignalEngine SignalEngineFacts.

(** The components that are switched on. *)
Definition enabled_components (cs : list Components.t) : list Components.t :=
  filter (fun c => enabled (state c) = true) cs.

Lemma Qplus_0_r_eq (a : Q) : Qplus a 0%Q = a.
Proof.
  destruct a as [n d]. unfold Qplus. simpl.
  by rewrite Z.mul_1_r, Z.add_0_r, Pos.mul_1_r.
Qed.

(** Adding a zero cell changes nothing, whatever the cell holds. *)
Lemma add_zero (a : F32.t) : F32.add a F32.zero = a.
Proof. destruct a as [q | | |]; [| done | done | done]. simpl. by rewrite Qplus_0_r_eq. Qed.

Lemma zip_with_zeros (x : list F32.t) :
  zip_with F32.add x (replicate (length x) F32.zero) = x.
Proof.
  induction x as [| a x IH]; [done |]. simpl. by rewrite add_zero, IH.
Qed.

Section EngineExtra.
Variable waveform : kind -> dict -> Q -> Z -> Q -> list F32.t.
Variable fails : kind -> dict -> Q -> Z -> Q -> option exn.
Implicit Types (e : SignalEngine.t) (c : Components.t) (x : list F32.t).

Lemma mix_skips_disabled t0 n fs comps x :
  0 <= n -> length x = Z.to_nat n ->
  fst (mix waveform fails t0 n fs x comps)
  = fst (mix waveform fails t0 n fs x (enabled_components comps)).
Proof.
  intros Hn. revert x. induction comps as [| c rest IH]; intros x Hx; [done |].
  unfold enabled_components in *. rewrite filter_cons.
  destruct (enabled (state c)) eqn:Hen.
  - rewrite decide_True by done. simpl.
    destruct (generate waveform fails c t0 n fs) as [[y | err] c']; [| done].
    destruct (iadd x y) as [x' | err] eqn:Hadd; [| done].
    apply length_iadd in Hadd.
    specialize (IH x' ltac:(lia)).
    destruct (mix waveform fails t0 n fs x' rest) as [r1 rest1].
    destruct (mix waveform fails t0 n fs x' (filter _ rest)) as [r2 rest2].
    done.
  - rewrite decide_False by done. simpl.
    unfold generate. rewrite Hen. simpl. unfold np_zeros.
    destruct (Z.ltb_spec n 0); [lia |].
    unfold iadd. rewrite decide_True by (rewrite length_replicate; lia).
    rewrite <- Hx, zip_with_zeros.
    specialize (IH x Hx).
    destruct (mix waveform fails t0 n fs x rest) as [r1 rest1]. done.
Qed.

(** X5. Logical time follows the chunks: a call that raises leaves the
    clock where it was; a call that returns a chunk on a playing engine
    stamps it with [sample_index / fs] and advances the clock by the chunk
    length [min(chunk_size, MAX_CHUNK)], whatever the components returned,
    so the next chunk is stamped with the new sample index over [fs]. *)
Theorem generate_chunk_clock e :
  let e' := snd (generate_chunk waveform fails e) in
  let n := Z.min (chunk_size e) MAX_CHUNK in
  (forall err, fst (generate_chunk waveform fails e) = Raise err -> clock e' = clock e)
  /\ (forall chunk t,
        fst (generate_chunk waveform fails e) = Ok (chunk, t) ->
        is_paused e = false ->
        t = (inject_Z (RealtimeClock.sample_index (clock e)) / fs e)%Q
        /\ RealtimeClock.sample_index (clock e')
           = RealtimeClock.sample_index (clock e) + n
        /\ fs e' = fs e
        /\ forall chunk' t',
             fst (generate_chunk waveform fails e') = Ok (chunk', t') ->
             t' = (inject_Z (RealtimeClock.sample_index (clock e) + n) / fs e)%Q).
Proof.
  intros e' n.
  assert (Hstamp : forall e0 chunk t,
            fst (generate_chunk waveform fails e0) = Ok (chunk, t) ->
            t = (inject_Z (RealtimeClock.sample_index (clock e0)) / fs e0)%Q).
  { intros e0 chunk t. unfold generate_chunk.
    destruct (Qeq_bool (fs e0) 0); [done |].
    destruct (_paused e0); [by intros [= _ <-] |].
    destruct (mix _ _ _ _ _ _ _) as [[acc | err] comps']; [| done].
    by intros [= _ <-]. }
  split.
  - unfold e', generate_chunk.
    destruct (Qeq_bool (fs e) 0); [done |].
    destruct (_paused e); [done |].
    by destruct (mix _ _ _ _ _ _ _) as [[acc | err] comps'].
  - intros chunk t Hret Hplay.
    split; [by eapply Hstamp |].
    assert (Hadv : RealtimeClock.sample_index (clock e')
                   = RealtimeClock.sample_index (clock e) + n /\ fs e' = fs e).
    { unfold e'. revert Hret. unfold is_paused in Hplay.
      unfold generate_chunk. rewrite Hplay.
      destruct (Qeq_bool (fs e) 0); [done |].
      by destruct (mix _ _ _ _ _ _ _) as [[acc | err] comps']. }
    destruct Hadv as [Hidx Hfs]. split; [done |]. split; [done |].
    intros chunk' t' Hret'. apply Hstamp in Hret'. by rewrite Hidx, Hfs in Hret'.
Qed.

(** X6. [generate_chunk] only moves the clock and the private smoothing
    state of the components: the sample rate, chunk size, clip threshold,
    pause flag, and the class, enabled flag and parameters of every
    component are the same after the call, whether it returns or raises. *)
Theorem generate_chunk_keeps_configuration e :
  let e' := snd (generate_chunk waveform fails e) in
  map (fun c => (kind_of c, state c)) (components e')
  = map (fun c => (kind_of c, state c)) (components e)
  /\ (fs e', chunk_size e', amplitude_clip e', _paused e')
     = (fs e, chunk_size e, amplitude_clip e, _paused e).
Proof.
  intros e'. unfold e', generate_chunk.
  destruct (Qeq_bool (fs e) 0); [done |].
  destruct (_paused e) eqn:Hp; [simpl; by rewrite Hp |].
  pose proof (mix_state waveform fails
                (inject_Z (RealtimeClock.sample_index (clock e)) / fs e)%Q
                (Z.min (chunk_size e) MAX_CHUNK) (fs e) (components e)
                (replicate (chunk_view_length (Z.min (chunk_size e) MAX_CHUNK)) F32.zero))
    as Hst.
  destruct (mix _ _ _ _ _ _ _) as [[acc | err] comps']; simpl in *;
    by rewrite Hst, Hp.
Qed.

(** X7. Disabled components contribute nothing: with a nonnegative chunk
    size, the chunk (or the exception) [generate_chunk] produces is the one
    the engine produces with its disabled components taken out. *)
Theorem disabled_components_contribute_zero e :
  0 <= chunk_size e ->
  fst (generate_chunk waveform fails e)
  = fst (generate_chunk waveform fails
           (set_components e (enabled_components (components e)))).
Proof.
  intros Hn. unfold generate_chunk. simpl.
  destruct (Qeq_bool (fs e) 0); [done |].
  destruct (_paused e); [done |].
  assert (Hn' : 0 <= Z.min (chunk_size e) MAX_CHUNK <= MAX_CHUNK)
    by (unfold MAX_CHUNK; lia).
  rewrite chunk_view_length_inside by done.
  pose proof (mix_skips_disabled
                (inject_Z (RealtimeClock.sample_index (clock e)) / fs e)%Q
                (Z.min (chunk_size e) MAX_CHUNK) (fs e) (components e)
                (replicate (Z.to_nat (Z.min (chunk_size e) MAX_CHUNK)) F32.zero)
                ltac:(lia) ltac:(apply length_replicate))
    as Hmix.
  destruct (mix _ _ _ _ _ _ (components e)) as [r1 comps1].
  destruct (mix _ _ _ _ _ _ (enabled_components _)) as [r2 comps2].
  simpl in Hmix. subst r2. by destruct r1.
Qed.
End EngineExtra.

End SignalEngineExtra.

(** ** Signal engine: the component list *)

Module ComponentListExtra.
Import Exn Components SignalEngine SignalEngineFacts ConfigFacts.

(** The tone's [_target] mirrors its public parameters. *)
Definition target_synced (c : Components.t) : Prop :=
  match c with
  | SineComponent s _ tgt => tgt = params s
  | _ => True
  end.

Lemma dict_update_lookup (d new : dict) k :
  dict_update d new !! k
  = match new !! k with
    | Some v => Some v
    | None => d !! k
    end.
Proof.
  unfold dict_update. rewrite lookup_union.
  destruct (new !! k), (d !! k); done.
Qed.

Lemma in_range_true e idx :
  0 <= idx < Z.of_nat (length (components e)) -> in_range e idx = true.
Proof.
  intros Hidx. unfold in_range. apply andb_true_iff.
  split; [apply Z.leb_le | apply Z.ltb_lt]; lia.
Qed.

(** X8. [add_component] raises [KeyError] on an unknown type and leaves
    the engine as it was; on a known type it appends one component of that
    class at the end and returns its index: the component has the given
    flag, every key of the class schema, the caller's value for each key
    the caller passed and the schema default for the others. *)
Theorem add_component_result e comp_type p en :
  match BUILTIN_COMPONENTS !! comp_type with
  | None => add_component e comp_type p en = (Raise KeyError, e)
  | Some cls =>
      exists obj,
        add_component e comp_type p en
        = (Ok (Z.of_nat (length (components e))),
           set_components e (components e ++ [obj]))
        /\ components (snd (add_component e comp_type p en))
             !! length (components e) = Some obj
        /\ kind_of obj = cls
        /\ enabled (state obj) = en
        /\ (forall k, params (state obj) !! k
                      = match default ∅ p !! k with
                        | Some v => Some v
                        | None => default_params cls !! k
                        end)
        /\ (forall s, s ∈ schema cls ->
                      is_Some (params (state obj) !! Schema.key s))
  end.
Proof.
  unfold add_component. destruct (BUILTIN_COMPONENTS !! comp_type) as [cls |]; [| done].
  set (pr := match p with
             | Some d => if decide (d = ∅) then store_defaults (schema cls) ∅
                         else dict_update (store_defaults (schema cls) ∅) d
             | None => store_defaults (schema cls) ∅
             end).
  assert (Hpr : forall k, pr !! k = match default ∅ p !! k with
                                    | Some v => Some v
                                    | None => default_params cls !! k
                                    end).
  { intros k. unfold pr. destruct p as [d |]; simpl.
    - case_decide as Hd; [subst d; by rewrite lookup_empty |].
      apply dict_update_lookup.
    - by rewrite lookup_empty. }
  eexists. split.
  { f_equal. rewrite length_app. simpl. f_equal. lia. }
  simpl. split; [by rewrite lookup_app_r, Nat.sub_diag |].
  rewrite kind_of_construct, state_construct. simpl.
  split; [done |]. split; [done |]. split; [exact Hpr |].
  intros s Hs. rewrite Hpr. destruct (default ∅ p !! Schema.key s); [done |].
  by apply store_defaults_all.
Qed.

(** X9. With an index inside the list, [set_component_enabled] sets the
    flag of that one component and nothing else: its class, parameters and
    private state, the other components and the length stay the same. *)
Theorem set_component_enabled_in_range e idx b :
  0 <= idx < Z.of_nat (length (components e)) ->
  let e' := set_component_enabled e idx b in
  length (components e') = length (components e)
  /\ (exists c, components e !! Z.to_nat idx = Some c
                /\ components e' !! Z.to_nat idx = Some (set_enabled c b)
                /\ enabled (state (set_enabled c b)) = b
                /\ params (state (set_enabled c b)) = params (state c)
                /\ kind_of (set_enabled c b) = kind_of c)
  /\ (forall j, j <> Z.to_nat idx -> components e' !! j = components e !! j).
Proof.
  intros Hidx e'. unfold e', set_component_enabled.
  rewrite in_range_true by done. simpl.
  split; [apply length_alter |]. split.
  - destruct (lookup_lt_is_Some_2 (components e) (Z.to_nat idx)) as [c Hc]; [lia |].
    exists c. split; [done |]. rewrite list_lookup_alter_eq, Hc. simpl.
    split; [done |]. unfold set_enabled.
    rewrite state_set_state, kind_of_set_state. done.
  - intros j Hj. by rewrite list_lookup_alter_ne.
Qed.

(** X10. With an index inside the list, [update_component_params] merges
    the given keys into the parameters of that one component: a key of the
    update takes its new value, every other key keeps its old one, and the
    class, the flag, the other components and the length stay the same. A
    tone keeps its current (smoothed) values and only its targets move. *)
Theorem update_component_params_in_range e idx p :
  0 <= idx < Z.of_nat (length (components e)) ->
  let e' := update_component_params e idx p in
  length (components e') = length (components e)
  /\ (exists c c', components e !! Z.to_nat idx = Some c
                   /\ components e' !! Z.to_nat idx = Some c'
                   /\ kind_of c' = kind_of c
                   /\ enabled (state c') = enabled (state c)
                   /\ (forall k, params (state c') !! k
                                 = match p !! k with
                                   | Some v => Some v
                                   | None => params (state c) !! k
                                   end)
                   /\ (forall s cur tgt, c = SineComponent s cur tgt ->
                         c' = SineComponent (state c') cur (dict_update tgt p)))
  /\ (forall j, j <> Z.to_nat idx -> components e' !! j = components e !! j).
Proof.
  intros Hidx e'. unfold e', update_component_params.
  rewrite in_range_true by done. simpl.
  split; [apply length_alter |]. split.
  - destruct (lookup_lt_is_Some_2 (components e) (Z.to_nat idx)) as [c Hc]; [lia |].
    exists c, (update_params c p). split; [done |].
    rewrite list_lookup_alter_eq, Hc. simpl. split; [done |].
    split; [by destruct c |]. split; [by destruct c |]. split.
    + intros k. rewrite <- dict_update_lookup. by destruct c.
    + by intros s cur tgt ->.
  - intros j Hj. by rewrite list_lookup_alter_ne.
Qed.

(** X11. With an index inside the list, [remove_component] takes out that
    one component: the list is one shorter, the components before the
    index stay in place and the ones after it move down by one. *)
Theorem remove_component_in_range e idx :
  0 <= idx < Z.of_nat (length (components e)) ->
  let e' := remove_component e idx in
  S (length (components e')) = length (components e)
  /\ (forall j, (j < Z.to_nat idx)%nat -> components e' !! j = components e !! j)
  /\ (forall j, (Z.to_nat idx <= j)%nat -> components e' !! j = components e !! S j).
Proof.
  intros Hidx e'. unfold e', remove_component.
  rewrite in_range_true by done. simpl.
  split; [| split].
  - destruct (lookup_lt_is_Some_2 (components e) (Z.to_nat idx)) as [c Hc]; [lia |].
    rewrite length_delete by eauto. lia.
  - intros j Hj. by apply list_lookup_delete_lt.
  - intros j Hj. by apply list_lookup_delete_ge.
Qed.

Section Reachable.
Variable waveform : kind -> dict -> Q -> Z -> Q -> list F32.t.
Variable fails : kind -> dict -> Q -> Z -> Q -> option exn.

Lemma generate_target_synced c t0 n fs :
  target_synced c -> target_synced (snd (generate waveform fails c t0 n fs)).
Proof.
  intros Hc. unfold generate. destruct (negb (enabled (state c))); [done |].
  destruct c as [s ls | s cur tgt | s | s | s]; simpl in *.
  - destruct (_ && _); [done |]. by destruct (_ || _).
  - by destruct (sine_alpha _ n fs).
  - by destruct (n <? 0).
  - destruct (n <? 0); [done |]. destruct (_ && _); [done |].
    by destruct (fails _ _ _ _ _).
  - destruct (n <? 0); [done |]. by destruct (fails _ _ _ _ _).
Qed.

Lemma mix_target_synced t0 n fs comps x :
  Forall target_synced comps ->
  Forall target_synced (snd (mix waveform fails t0 n fs x comps)).
Proof.
  intros Hall. revert x. induction Hall as [| c rest Hc Hrest IH]; intros x.
  { by constructor. }
  simpl. pose proof (generate_target_synced c t0 n fs Hc) as Hc'.
  destruct (generate waveform fails c t0 n fs) as [[y | err] c']; simpl in *;
    [| by constructor].
  destruct (iadd x y) as [x' | err]; simpl; [| by constructor].
  specialize (IH x'). destruct (mix waveform fails t0 n fs x' rest) as [r' rest'].
  by constructor.
Qed.

Lemma exec_target_synced e c :
  Forall target_synced (components e) ->
  Forall target_synced (components (exec waveform fails e c)).
Proof.
  intros Hall. destruct c as [a b c | | | | ty p en | i | i b | i p | snap |];
    unfold exec; try done.
  - unfold add_component. destruct (BUILTIN_COMPONENTS !! ty) as [cls |]; [| done].
    simpl. apply Forall_app. split; [done |]. apply Forall_singleton.
    by destruct cls.
  - unfold remove_component. destruct (in_range e i); [| done].
    simpl. by apply Forall_delete.
  - unfold set_component_enabled. destruct (in_range e i); [| done].
    simpl. apply Forall_alter; [done |]. intros c _ Hc. by destruct c.
  - unfold update_component_params. destruct (in_range e i); [| done].
    simpl. apply Forall_alter; [done |]. intros c _ Hc.
    destruct c; simpl in *; try done. by rewrite Hc.
  - rewrite replace_components_omap. apply Forall_forall. intros obj Hobj.
    apply list_elem_of_omap in Hobj as (c & _ & Hc). unfold rebuild in Hc.
    destruct (s_type c) as [ty |]; simpl in Hc; [| done].
    destruct (BUILTIN_COMPONENTS !! ty) as [cls |]; simpl in Hc; [| done].
    injection Hc as <-. by destruct cls.
  - unfold generate_chunk. destruct (Qeq_bool (fs e) 0); [done |].
    destruct (_paused e); [done |].
    pose proof (mix_target_synced
                  (inject_Z (RealtimeClock.sample_index (clock e)) / fs e)%Q
                  (Z.min (chunk_size e) MAX_CHUNK) (fs e) (components e)
                  (replicate (chunk_view_length (Z.min (chunk_size e) MAX_CHUNK)) F32.zero)
                  Hall) as Hmix.
    destruct (mix _ _ _ _ _ _ _) as [[acc | err] comps']; done.
Qed.

(** X12. On every engine reached through the control surface, the
    [_target] dict of each tone equals its public parameters: an update
    reaches both, and nothing else writes either. *)
Theorem run_target_synced calls :
  Forall target_synced (components (run waveform fails calls)).
Proof.
  unfold run.
  assert (H0 : Forall target_synced (components (new RealtimeClock.new)))
    by constructor.
  revert H0. generalize (new RealtimeClock.new).
  induction calls as [| c rest IH]; intros e He; [done |].
  simpl. apply IH. by apply exec_target_synced.
Qed.
End Reachable.

(** X13. Loading is stable: for any saved configuration, on any engine,
    the components [replace_components] builds are reproduced (class,
    order, flag, parameters) when their own snapshot is loaded again, and
    that second load leaves the snapshot unchanged. *)
Theorem replace_components_stable e snap :
  let e1 := replace_components e snap in
  let e2 := replace_components e1 (snapshot_components e1) in
  (length (components e1) <= length snap)%nat
  /\ map public (components e2) = map public (components e1)
  /\ snapshot_components e2 = snapshot_components e1.
Proof.
  intros e1 e2.
  assert (Hcomplete : Forall complete (components e1)).
  { unfold e1. rewrite replace_components_omap. apply Forall_forall.
    intros obj Hobj. apply list_elem_of_omap in Hobj as (c & _ & Hc).
    by apply complete_rebuild in Hc. }
  assert (Hpub : map public (components e2) = map public (components e1)).
  { unfold e2. rewrite replace_components_omap, snapshot_components_map.
    by apply roundtrip_public. }
  split; [| split; [done |]].
  - unfold e1. rewrite replace_components_omap.
    generalize snap. intros l. induction l as [| c l IH]; [done |].
    cbn [omap list_omap]. destruct (rebuild c); simpl in *; lia.
  - rewrite !snapshot_components_map.
    assert (Hentry : forall l : list Components.t,
              map entry_of l
              = map (fun pb : kind * bool * dict =>
                       {| s_type := Some (TYPE pb.1.1); s_name := Some (NAME pb.1.1);
                          s_enabled := Some (Value.VBool pb.1.2);
                          s_params := Some pb.2 |}) (map public l)).
    { intros l. rewrite map_map. by apply map_ext. }
    by rewrite !Hentry, Hpub.
Qed.

End ComponentListExtra.

(** ** Plugin registry: the external scan, reloads, the key set *)

Module PluginManagerExtra.
Import Exn PluginManager PluginManagerFacts.

(** A file of the plugin folder that the scan loads. *)
Definition scanned (fn : string) : bool :=
  endswith fn ".py" && negb (startswith fn "_").

Lemma string_length_app (s t : string) :
  String.length (s +:+ t) = (String.length s + String.length t)%nat.
Proof. induction s as [| a s IH]; simpl; [done | by rewrite IH]. Qed.

Lemma substring_app_tail (s t : string) (m : nat) :
  String.substring (String.length s) m (s +:+ t) = String.substring 0 m t.
Proof. induction s as [| a s IH]; simpl; [done | exact IH]. Qed.

Lemma substring_app_head (s t : string) :
  String.substring 0 (String.length s) (s +:+ t) = s.
Proof.
  induction s as [| a s IH]; simpl; [by destruct t | by rewrite IH].
Qed.

(** X15. The file [stem.py] of the plugin folder is recognised by its
    suffix, is skipped exactly when the stem starts with an underscore, and
    is loaded as the module [plugins.wavelets.stem] under the fallback id
    [plugin:plugins.wavelets.stem]. *)
Theorem external_file_naming (stem : string) :
  endswith (stem +:+ ".py") ".py" = true
  /\ scanned (stem +:+ ".py") = negb (startswith stem "_")
  /\ external_mod (stem +:+ ".py")
     = ("plugins.wavelets." +:+ stem, "plugin:plugins.wavelets." +:+ stem).
Proof.
  assert (Hend : endswith (stem +:+ ".py") ".py" = true).
  { unfold endswith. rewrite string_length_app. simpl.
    replace (String.length stem + 3 - 3)%nat with (String.length stem) by lia.
    rewrite substring_app_tail. by rewrite Nat.add_comm. }
  split; [done |]. split.
  - unfold scanned. rewrite Hend. simpl. unfold startswith.
    destruct stem as [| a stem]; [by vm_compute |].
    change (String a stem +:+ ".py") with (String a (stem +:+ ".py")).
    cbn [String.prefix].
    destruct (Ascii.ascii_dec _ a); [by destruct stem | done].
  - unfold external_mod. rewrite string_length_app. simpl.
    replace (String.length stem + 3 - 3)%nat with (String.length stem) by lia.
    by rewrite substring_app_head.
Qed.

Section ManagerExtra.
Context {Obj : Type}.
Implicit Types (w : World Obj) (pm : PluginManager.t Obj) (c : string * string).

(** The world with another listing of the plugin folder. *)
Definition with_listdir w (files : list string) : World Obj :=
  {| in_sys_modules := in_sys_modules w; import_module := import_module w;
     reload := reload w; isdir := isdir w; listdir := files |}.

Lemma load_with_listdir w files pm modname plugin_id :
  _load_wavelet_module (with_listdir w files) pm modname plugin_id
  = _load_wavelet_module w pm modname plugin_id.
Proof. done. Qed.

(** X16. The external scan only looks at the files whose name ends in
    [.py] and does not start with an underscore: a missing folder leaves
    the manager as it is, and every other file of the folder can be taken
    out of the listing without changing the outcome. *)
Theorem external_scan_filter w pm :
  (isdir w = false -> _load_external_wavelets w pm = pm)
  /\ _load_external_wavelets w pm
     = _load_external_wavelets
         (with_listdir w (filter (fun fn => scanned fn = true) (listdir w))) pm.
Proof.
  split.
  { intros Hdir. unfold _load_external_wavelets. by rewrite Hdir. }
  unfold _load_external_wavelets. simpl. destruct (negb (isdir w)); [done |].
  assert (Hskip : forall fn,
            negb (endswith fn ".py") || startswith fn "_" = negb (scanned fn)).
  { intros fn. unfold scanned.
    by destruct (endswith fn ".py"), (startswith fn "_"). }
  revert pm. induction (listdir w) as [| fn fns IH]; intros pm; [done |].
  cbn [fold_left]. rewrite Hskip. destruct (scanned fn) eqn:Hsc.
  - rewrite filter_cons_True by done. cbn [fold_left negb].
    rewrite Hskip, Hsc. cbn [negb]. rewrite load_with_listdir. apply IH.
  - rewrite filter_cons_False by congruence. apply IH.
Qed.

Lemma load_log_prefix w pm c :
  exists r, log (_load_wavelet_module w pm c.1 c.2) = log pm ++ [r].
Proof. destruct (load_log_step w pm c) as (r & Hr & _). eauto. Qed.

Lemma load_list_log_prefix w cs pm :
  exists rs, log (load_list w cs pm) = log pm ++ rs /\ length rs = length cs.
Proof.
  revert pm. induction cs as [| c cs IH]; intros pm.
  { exists []. by rewrite app_nil_r. }
  simpl. destruct (IH (_load_wavelet_module w pm c.1 c.2)) as (rs & Hrs & Hlen).
  destruct (load_log_prefix w pm c) as (r & Hr).
  exists (r :: rs). rewrite Hrs, Hr, <- app_assoc. simpl. by rewrite Hlen.
Qed.

(** X17. A reload replaces the registry wholesale and only adds to the
    log: what [reload_all] leaves in the registry does not depend on what
    was registered before, and the log keeps its earlier records and gains
    exactly one record per candidate visited, loaded or not. *)
Theorem reload_all_wholesale w pm :
  (forall pm0, wavelet_plugins (reload_all w pm) = wavelet_plugins (reload_all w pm0))
  /\ exists rs, log (reload_all w pm) = log pm ++ rs
                /\ length rs = length (candidates w).
Proof.
  split.
  - intros pm0. rewrite !reload_all_candidates.
    rewrite (load_list_skips_failed w (candidates w) _
               {| wavelet_plugins := ∅; log := log pm0 |}) by done.
    symmetry. by apply load_list_skips_failed.
  - rewrite reload_all_candidates.
    apply (load_list_log_prefix w (candidates w)
             {| wavelet_plugins := ∅; log := log pm |}).
Qed.

(** The ids a candidate is stored under: its fallback id once its class
    has built the object and its metadata is a dict, also when the store
    under the declared id then raises; and its declared id when that is a
    string. *)
Definition stored_under w c (k : string) : Prop :=
  match classify w c with
  | Failed _ => False
  | Loaded _ _ _ pid => k = c.2 \/ k = pid
  | Aliased _ _ _ _ => k = c.2
  end.

Lemma load_list_keys w (cs0 cs : list (string * string)) pm :
  (forall c, c ∈ cs -> c ∈ cs0) ->
  (forall k, is_Some (wavelet_plugins pm !! k) ->
             exists c, c ∈ cs0 /\ stored_under w c k) ->
  forall k, is_Some (wavelet_plugins (load_list w cs pm) !! k) ->
            exists c, c ∈ cs0 /\ stored_under w c k.
Proof.
  revert pm. induction cs as [| c cs IH]; intros pm Hsub Hpm; [done |].
  simpl. apply IH; [intros c' Hc'; apply Hsub; by right |].
  intros k.
  assert (Hin : c ∈ cs0) by (apply Hsub; by left).
  destruct (classify w c) as [e | m obj d pid | m obj d items] eqn:Hcl.
  - rewrite (load_failed w pm c e Hcl). apply Hpm.
  - rewrite (load_succeeded w pm c m obj d pid Hcl). simpl.
    rewrite lookup_insert. case_decide as Hk.
    { intros _. exists c. split; [done |]. unfold stored_under. rewrite Hcl.
      by right. }
    case_decide; [| apply Hpm].
    rewrite lookup_insert. case_decide as Hk2; [| apply Hpm].
    intros _. exists c. split; [done |]. unfold stored_under. rewrite Hcl.
    by left.
  - rewrite (load_aliased w pm c m obj d items Hcl). simpl.
    rewrite lookup_insert. case_decide as Hk; [| apply Hpm].
    intros _. exists c. split; [done |]. unfold stored_under. by rewrite Hcl.
Qed.

Lemma load_list_keeps_key w cs pm c k :
  c ∈ cs -> stored_under w c k ->
  is_Some (wavelet_plugins (load_list w cs pm) !! k).
Proof.
  revert pm. induction cs as [| c' cs IH]; intros pm Hc Hst.
  { by apply elem_of_nil in Hc. }
  apply elem_of_cons in Hc as [<- | Hc]; [| by apply IH].
  simpl. apply load_list_dom. unfold stored_under in Hst.
  destruct (classify w c) as [e | m obj d pid | m obj d items] eqn:Hcl; [done | |].
  - rewrite (load_succeeded w pm c m obj d pid Hcl). simpl.
    rewrite lookup_insert. case_decide as Hk; [done |].
    destruct Hst as [-> | ->]; [| done].
    rewrite decide_True by done. by rewrite lookup_insert_eq.
  - subst k. rewrite (load_aliased w pm c m obj d items Hcl). simpl.
    by rewrite lookup_insert_eq.
Qed.

(** X18. After [reload_all] the registry answers exactly to the ids the
    candidates were stored under: the fallback id of every candidate whose
    class built its object and whose metadata is a dict (a candidate whose
    declared id cannot be hashed included, though its load is logged as
    failed), and the declared id of every candidate that loaded; any other
    id gives nothing. *)
Theorem reload_all_keys w pm k :
  is_Some (get_wavelet (reload_all w pm) k)
  <-> exists c, c ∈ candidates w /\ stored_under w c k.
Proof.
  unfold get_wavelet. rewrite reload_all_candidates. split.
  - apply load_list_keys; [done |].
    intros k'. simpl. rewrite lookup_empty. by intros [? ?].
  - intros (c & Hc & Hst). by eapply load_list_keeps_key.
Qed.
End ManagerExtra.

End PluginManagerExtra.

(** ** Transforms: the result shapes *)

Module TransformExtra.
Import Exn Transforms TransformFacts.



Lemma np_linspace_lookup (a b : Q) (n i : nat) :
  (i < n)%nat ->
  np_linspace a b n !! i
  = Some (a + inject_Z (Z.of_nat i) * ((b - a) / inject_Z (Z.of_nat n - 1)))%Q.
Proof.
  intros Hi. unfold np_linspace.
  change (map ?f ?l) with (f <$> l).
  by rewrite list_lookup_fmap, lookup_seq_lt.
Qed.

Section Grid.
Variable nm : Numerics.

Lemma normalize_image_shape normalize img :
  map (length (A:=Q)) (CWT.normalize_image nm normalize img) = map (length (A:=Q)) img.
Proof.
  unfold CWT.normalize_image.
  assert (Hmm : forall f : Q -> Q,
            map (length (A:=Q)) (map (map f) img) = map (length (A:=Q)) img).
  { intros f. rewrite map_map. apply map_ext. intros row. apply length_map. }
  destruct (String.eqb normalize "max").
  { by destruct (negb (Qle_bool _ 0)). }
  destruct (String.eqb normalize "zscore"); [| done].
  by destruct (negb (Qle_bool _ _)).
Qed.

(** X21. Whenever the continuous transform returns, the sample rate is not
    zero, the result is labelled in Hz, its time axis has one entry
    [i / fs] per input sample, its frequency axis is the grid (two rows or
    more), and its image has the shape of the coefficient matrix
    [pywt.cwt] gave for as many scales as the grid has frequencies; at a
    zero sample rate the transform always raises. *)
Theorem cwt_result_shape x fs params :
  match CWT.transform nm x fs params with
  | Ok r =>
      Qeq_bool fs 0 = false
      /\ label_y r = "Hz"
      /\ length (x_axis r) = length x
      /\ (forall i, (i < length x)%nat ->
            x_axis r !! i = Some (inject_Z (Z.of_nat i) / fs)%Q)
      /\ (2 <= length (y_axis r))%nat
      /\ exists scales coefs wname,
           pywt_cwt nm x scales wname (1.0 / fs)%Q = Ok coefs
           /\ length scales = length (y_axis r)
           /\ map (length (A:=Q)) (image r) = map (length (A:=Q)) (rev coefs)
  | Raise _ => True
  end
  /\ (Qeq_bool fs 0 = true -> exists e, CWT.transform nm x fs params = Raise e).
Proof.
  unfold CWT.transform.
  destruct (py_float nm (pget params "f_min" _)) as [f_min | e]; [| eauto].
  destruct (py_float nm (pget params "f_max" _)) as [f_max | e]; [| eauto].
  destruct (py_int nm (pget params "n_freqs" _)) as [n_freqs | e]; [| eauto].
  set (grid := CWT._freq_grid _ _ _ _ _).
  assert (Hgrid : (2 <= length grid)%nat).
  { unfold grid. rewrite length_freq_grid. lia. }
  destruct (CWT._scales_from_freqs _ _ _ _) as [scales | e] eqn:Hsc; [| eauto].
  assert (Hlen : length scales = length grid).
  { unfold CWT._scales_from_freqs in Hsc.
    destruct (central_frequency nm _); [| done].
    injection Hsc as <-. unfold CWT.astype_float32. by rewrite !length_map. }
  destruct (Qeq_bool fs 0) eqn:Hfs; [eauto |].
  destruct (pywt_cwt nm x _ _ _) as [coefs | e] eqn:Hcwt; [| split; [done | done]].
  split; [| done]. cbn [label_y x_axis y_axis image].
  split; [done |]. split; [done |].
  split; [unfold np_arange; by rewrite !length_map, length_seq |].
  split.
  { intros i Hi. unfold np_arange.
    change (map ?f ?l) with (f <$> l).
    by rewrite !list_lookup_fmap, lookup_seq_lt. }
  split; [done |].
  eexists _, coefs, _. split; [exact Hcwt |].
  split; [by rewrite length_rev |].
  rewrite normalize_image_shape.
  destruct (String.eqb _ "abs"); rewrite map_map; apply map_ext;
    intros row; apply length_map.
Qed.

(** X22. The discrete transform on a window shorter than 16 samples does
    not look at its parameters: at a zero sample rate it raises
    [ZeroDivisionError]; otherwise it returns one row of [max(n, 1)] zeros
    with the ordinal axis [[0]], a time axis of [max(n, 1)] points from 0 to
    [n / fs], the label [level/node] and no annotations. *)
Theorem dwt_short_window_result x fs params :
  (length x < 16)%nat ->
  (Qeq_bool fs 0 = true -> DWT.transform nm x fs params = Raise ZeroDivisionError)
  /\ (Qeq_bool fs 0 = false ->
      exists r,
        DWT.transform nm x fs params = Ok r
        /\ image r = [replicate (Nat.max (length x) 1) 0%Q]
        /\ y_axis r = [0%Q]
        /\ length (x_axis r) = Nat.max (length x) 1
        /\ (exists v, x_axis r !! 0%nat = Some v /\ (v == 0)%Q)
        /\ ((2 <= length x)%nat ->
            exists v, x_axis r !! (length x - 1)%nat = Some v
                      /\ (v == inject_Z (Z.of_nat (length x)) / fs)%Q)
        /\ label_y r = "level/node"
        /\ meta r = ∅).
Proof.
  intros Hshort. unfold DWT.transform.
  destruct (Nat.ltb_spec (length x) 16) as [_ | Hge]; [| lia].
  split; [by intros -> |]. intros ->.
  eexists. split; [done |]. cbn [image y_axis x_axis label_y meta].
  split; [done |]. split; [done |].
  split; [apply length_np_linspace |]. split; [| split; [| done]].
  - eexists. rewrite np_linspace_lookup by lia. split; [done |]. simpl. ring.
  - intros Hn. eexists. rewrite np_linspace_lookup by lia. split; [done |].
    replace (Nat.max (length x) 1) with (length x) by lia.
    replace (Z.of_nat (length x - 1)) with (Z.of_nat (length x) - 1) by lia.
    assert (Hden : (1 <= inject_Z (Z.of_nat (length x) - 1))%Q).
    { change 1%Q with (inject_Z 1). rewrite <- Zle_Qle. lia. }
    set (q := (inject_Z (Z.of_nat (length x)) / fs)%Q).
    field. lra.
Qed.
End Grid.

End TransformExtra.

(** ** Transforms: normalisation by the maximum *)

Module NormalizeExtra.
Import Exn Transforms TransformFacts TransformExtra.




Section Normalize.
Variable nm : Numerics.


End Normalize.

End NormalizeExtra.

(** ** Instances of the further properties *)

Module ExtraInstances.
Import Exn Instances.

(** A playing engine with an enabled tone and a disabled noise source. *)
Definition demo_mixed : SignalEngine.t :=
  SignalEngine.run loud no_failure
    [ SignalEngine.AddComponent "sine" None true;
      SignalEngine.AddComponent "noise" None false;
      SignalEngine.SetGlobal None (Some 4) (Some 0.5%Q);
      SignalEngine.Play ].

(** A full buffer of capacity 5 that has wrapped: it was given 1 .. 7 and
    holds 3, 4, 5, 6, 7, the oldest at the cursor. *)
Definition demo_wrapped : RingBuffer.t Z :=
  RingBuffer.mk 5 [6; 7; 3; 4; 5] 2 5.


Definition demo_window : list Q := [1.0; (- 2.0); 3.0]%Q.


Lemma append_keeps_wf_witness :
  RingBuffer.wf demo_ring
  /\ exists rb', RingBuffer.append demo_ring [1; 2; 3] = Some rb'
                 /\ RingBuffer.wf rb' /\ RingBuffer.filled rb' = 3.
Proof.
  split; [exact demo_ring_wf |].
  destruct (RingBufferExtra.append_keeps_wf demo_ring [1; 2; 3] demo_ring_wf)
    as (rb' & Happ & Hwf & _ & _ & Hf).
  exists rb'. split; [exact Happ |]. split; [exact Hwf |].
  rewrite Hf. reflexivity.
Defined.

Lemma append_then_get_last_witness :
  RingBuffer.wf demo_ring
  /\ exists rb', RingBuffer.append demo_ring [1; 2; 3; 4; 5; 6] = Some rb'
                 /\ RingBuffer.get_last rb' 6 = [3; 4; 5; 6].
Proof.
  split; [exact demo_ring_wf |].
  destruct (RingBufferExtra.append_then_get_last demo_ring [1; 2; 3; 4; 5; 6]
              demo_ring_wf) as (rb' & Happ & Hget & _).
  exists rb'. split; [exact Happ | exact Hget].
Defined.

Lemma demo_wrapped_wf : RingBuffer.wf demo_wrapped.
Proof. constructor; simpl; lia. Qed.

Example demo_wrapped_reached :
  (rb ← RingBuffer.new 0 5; RingBuffer.appends rb [[1; 2; 3; 4; 5]; [6; 7]])
  = Some demo_wrapped.
Proof. reflexivity. Qed.

(** On the wrapped buffer holding 3, 4, 5, 6, 7: three samples are asked
    for and three are read, the last three of a longer read; a request for
    more than is stored gives the five stored samples. *)
Lemma get_last_length_witness :
  RingBuffer.wf demo_wrapped
  /\ length (RingBuffer.get_last demo_wrapped 3) = 3%nat
  /\ RingBuffer.get_last demo_wrapped 3 = [5; 6; 7]
  /\ RingBuffer.get_last demo_wrapped 4 = [4; 5; 6; 7]
  /\ RingBuffer.get_last demo_wrapped 3
     = Py.lastn 3 (RingBuffer.get_last demo_wrapped 4)
  /\ length (RingBuffer.get_last demo_wrapped 9) = 5%nat.
Proof.
  split; [exact demo_wrapped_wf |].
  destruct (RingBufferExtra.get_last_length demo_wrapped 3 demo_wrapped_wf)
    as [Hlen Hsuffix].
  split; [exact Hlen |]. split; [reflexivity |]. split; [reflexivity |].
  split; [apply (Hsuffix 4); lia |].
  exact (proj1 (RingBufferExtra.get_last_length demo_wrapped 9 demo_wrapped_wf)).
Defined.

Lemma disabled_components_contribute_zero_witness :
  0 <= SignalEngine.chunk_size demo_mixed
  /\ fst (SignalEngine.generate_chunk loud no_failure demo_mixed)
     = fst (SignalEngine.generate_chunk loud no_failure
              (SignalEngine.set_components demo_mixed
                 (SignalEngineExtra.enabled_components
                    (SignalEngine.components demo_mixed)))).
Proof.
  assert (Hn : 0 <= SignalEngine.chunk_size demo_mixed) by (vm_compute; discriminate).
  split; [exact Hn |].
  exact (SignalEngineExtra.disabled_components_contribute_zero loud no_failure
           demo_mixed Hn).
Defined.

Lemma set_component_enabled_in_range_witness :
  0 <= 1 < Z.of_nat (length (SignalEngine.components demo_mixed))
  /\ length (SignalEngine.components
               (SignalEngine.set_component_enabled demo_mixed 1 true))
     = length (SignalEngine.components demo_mixed).
Proof.
  assert (Hi : 0 <= 1 < Z.of_nat (length (SignalEngine.components demo_mixed)))
    by (vm_compute; split; [discriminate | reflexivity]).
  split; [exact Hi |].
  exact (proj1 (ComponentListExtra.set_component_enabled_in_range
                  demo_mixed 1 true Hi)).
Defined.

(** The amplitude of the tone at index 0 is set to 1.5: its parameters take
    the new value and keep the others, its current values stay, and the
    noise at index 1 is as before. *)
Lemma update_component_params_in_range_witness :
  0 <= 0 < Z.of_nat (length (SignalEngine.components demo_mixed))
  /\ (let e' := SignalEngine.update_component_params demo_mixed 0
                  {["amplitude" := Value.VFloat 1.5]} in
      length (SignalEngine.components e') = 2%nat
      /\ (exists c',
            SignalEngine.components e' !! 0%nat = Some c'
            /\ Components.kind_of c' = Components.Sine
            /\ Components.params (Components.state c') !! "amplitude"
               = Some (Value.VFloat 1.5)
            /\ Components.params (Components.state c') !! "frequency"
               = Some (Value.VFloat 5.0))
      /\ SignalEngine.components e' !! 1%nat
         = SignalEngine.components demo_mixed !! 1%nat).
Proof.
  assert (Hi : 0 <= 0 < Z.of_nat (length (SignalEngine.components demo_mixed)))
    by (vm_compute; split; [discriminate | reflexivity]).
  split; [exact Hi |].
  destruct (ComponentListExtra.update_component_params_in_range
              demo_mixed 0 {["amplitude" := Value.VFloat 1.5]} Hi)
    as (Hlen & (c & c' & Hc & Hc' & Hkind & _ & Hparams & _) & Hothers).
  split; [exact Hlen |]. split.
  - exists c'. split; [exact Hc' |].
    assert (Hc0 : SignalEngine.components demo_mixed !! 0%nat = Some c) by exact Hc.
    vm_compute in Hc0. injection Hc0 as <-.
    split; [exact Hkind |]. rewrite !Hparams. split; reflexivity.
  - apply Hothers. discriminate.
Defined.

Lemma remove_component_in_range_witness :
  0 <= 0 < Z.of_nat (length (SignalEngine.components demo_mixed))
  /\ S (length (SignalEngine.components (SignalEngine.remove_component demo_mixed 0)))
     = length (SignalEngine.components demo_mixed).
Proof.
  assert (Hi : 0 <= 0 < Z.of_nat (length (SignalEngine.components demo_mixed)))
    by (vm_compute; split; [discriminate | reflexivity]).
  split; [exact Hi |].
  exact (proj1 (ComponentListExtra.remove_component_in_range demo_mixed 0 Hi)).
Defined.

Lemma dwt_short_window_result_witness :
  (length demo_window < 16)%nat
  /\ exists r,
       Transforms.DWT.transform flat_numerics demo_window 2000.0 ∅ = Ok r
       /\ Transforms.image r = [[0%Q; 0%Q; 0%Q]]
       /\ Transforms.y_axis r = [0%Q].
Proof.
  assert (Hlen : (length demo_window < 16)%nat) by (vm_compute; lia).
  split; [exact Hlen |].
  destruct (TransformExtra.dwt_short_window_result flat_numerics demo_window
              2000.0 ∅ Hlen) as [_ Hok].
  destruct (Hok eq_refl) as (r & Hr & Himg & Hy & _).
  exists r. split; [exact Hr |]. split; [exact Himg | exact Hy].
Defined.


End ExtraInstances.
